(** * gologger: a leveled, multi-destination logger (Go package [gologger])

    A shallow embedding of [gologger.go] and [gologger_syslog.go], and the
    properties of the package's specification proved over it.

    The package keeps all of its state in heap-allocated [Logger] structs, a
    package variable [defaultLogger] pointing at one of them, and in the
    outside world (the destinations it writes to and closes).  The embedding
    threads that state explicitly through a small monad whose outcomes are a
    normal return, [os.Exit] and [panic].  What the package does to the
    outside world is recorded as a trace of [Write] and [Close] calls, each
    of which may fail.  The mutex [logLock] serialises goroutines and has no
    effect on a single thread of calls; it is left out. *)

From Stdlib Require Import ZArith String Ascii List Lia DecimalString.
From stdpp Require Import prelude strings.

(** ** Destinations, values and events *)

(** A Go [error], carried as its message. *)
Definition error := string.

(** An [io.Writer] a logger can be wired to.  [os.Stdout] and [os.Stderr] are
    [*os.File]s; a [*syslog.Writer] is identified by its connection number,
    priority and tag; the caller's own writers are identified by a number and
    say whether they also implement [io.Closer] (an [*os.File] does, a
    [*bytes.Buffer] does not).  A [Writer] is never nil; where the source
    has a writer that may be nil, the embedding has an [option Writer]. *)
Inductive Writer :=
| Stdout
| Stderr
| SyslogW (conn : nat) (priority : Z) (tag : string)
| CallerW (id : nat) (closer : bool).

#[global] Instance Writer_eq_dec : EqDecision Writer.
Proof. solve_decision. Defined.

(** The type assertion [w.(io.Closer)]. *)
Definition is_Closer (w : Writer) : bool :=
  match w with
  | Stdout | Stderr => true
  | SyslogW _ _ _ => true
  | CallerW _ c => c
  end.

Definition is_syslog (w : Writer) : bool :=
  match w with SyslogW _ _ _ => true | _ => false end.

(** Operands of the [fmt] functions ([interface{}] in the source). *)
Inductive Value :=
| VString (s : string)
| VInt (n : Z)
| VError (e : error)
| VWriter (w : Writer).

(** What the package does to the outside world, in order. *)
Inductive Event :=
| EWrite (w : Writer) (p : string)   (* w.Write(p) *)
| EClose (c : Writer).               (* c.Close()  *)

#[global] Instance Event_eq_dec : EqDecision Event.
Proof. solve_decision. Defined.

(** The libraries and the operating system the package calls into.  [fmt]'s
    three formatters, the date, time and call-site part of a [log] header
    (which depends on the flags and on the call depth), whether
    [syslog.New] fails (it may depend on how many connections were opened
    before), and what [Write] and [Close] on a destination report given the
    history (a short write counts as an error, as [io.MultiWriter] has it). *)
Class Runtime := {
  Sprint : list Value -> string;
  Sprintln : list Value -> string;
  Sprintf : string -> list Value -> string;
  header : Z -> Z -> string;
  syslog_New : nat -> Z -> string -> option error;
  writer_Write : list Event -> Writer -> string -> option error;
  closer_Close : list Event -> Writer -> option error
}.

(** ** Constants *)

Definition nl : string := String (ascii_of_nat 10) EmptyString.

(** Go's [int] is 64 bits wide; addition wraps around. *)
Definition wrap64 (z : Z) : Z := ((z + 2 ^ 63) mod 2 ^ 64 - 2 ^ 63)%Z.
Definition int_add (a b : Z) : Z := wrap64 (a + b).

(** [type severity int] and its four constants. *)
Definition sInfo : Z := 0.
Definition sWarn : Z := 1.
Definition sError : Z := 2.
Definition sFatal : Z := 3.

Definition labelInfo : string := "[INFO]: ".
Definition labelWarn : string := "[WARN]: ".
Definition labelErr : string := "[ERROR]: ".
Definition labelFatal : string := "[FATAL]: ".

(** Flags of package [log]. *)
Definition Ldate : Z := 1.
Definition Ltime : Z := 2.
Definition Lmicroseconds : Z := 4.
Definition Llongfile : Z := 8.
Definition Lshortfile : Z := 16.
Definition LUTC : Z := 32.
Definition Lmsgprefix : Z := 64.

Definition flags : Z := Z.lor (Z.lor Ldate Lmicroseconds) Lshortfile.
Definition initText : string :=
  "[ERROR]: Logging before logger initiated!" +:+ nl.

(** Priorities of package [log/syslog]. *)
Definition LOG_ERR : Z := 3.
Definition LOG_WARNING : Z := 4.
Definition LOG_NOTICE : Z := 5.
Definition LOG_USER : Z := Z.shiftl 1 3.

(** ** Loggers and the world *)

(** A [*log.Logger]: its output (the writers handed to [io.MultiWriter]),
    prefix and flags. *)
Record log_Logger := log_New {
  log_out : list Writer;
  log_prefix : string;
  log_flag : Z
}.

Record Logger := mkLogger {
  infoLog : log_Logger;
  warnLog : log_Logger;
  errorLog : log_Logger;
  fatalLog : log_Logger;
  closers : list Writer;
  initialized : bool;
  level : Z
}.

Record Verbose := mkVerbose {
  enabled : bool;
  logger : nat
}.

(** A [*Logger] is an index into [heap]; an index outside it stands for
    [nil], and dereferencing it panics as a nil dereference does. *)
Record World := mkWorld {
  heap : list Logger;
  defaultLogger : nat;
  conns : nat;
  trace : list Event
}.

Inductive Outcome (A : Type) :=
| Ret (a : A) (w : World)
| Exited (code : Z) (w : World)
| Panicked (msg : string) (w : World).
Arguments Ret {A} a w.
Arguments Exited {A} code w.
Arguments Panicked {A} msg w.

Definition M (A : Type) : Type := World -> Outcome A.

Definition ret {A} (a : A) : M A := fun w => Ret a w.

Definition bind {A B} (m : M A) (k : A -> M B) : M B := fun w =>
  match m w with
  | Ret a w' => k a w'
  | Exited c w' => Exited c w'
  | Panicked msg w' => Panicked msg w'
  end.

Declare Scope go_scope.
Delimit Scope go_scope with go.
Notation "'let*' x ':=' m 'in' k" := (bind m (fun x => k))
  (at level 10, x pattern, m at level 100, k at level 200) : go_scope.
Notation "'run' m 'then' k" := (bind m (fun _ => k))
  (at level 10, m at level 100, k at level 200) : go_scope.
Local Open Scope go_scope.

Definition panic {A} (msg : string) : M A := fun w => Panicked msg w.
Definition os_Exit {A} (code : Z) : M A := fun w => Exited code w.

Definition nil_dereference : string :=
  "runtime error: invalid memory address or nil pointer dereference".

Definition deref (l : nat) : M Logger := fun w =>
  match heap w !! l with
  | Some lg => Ret lg w
  | None => Panicked nil_dereference w
  end.

(** The world after the struct at [l] was overwritten with [lg]. *)
Definition stored (w : World) (l : nat) (lg : Logger) : World :=
  mkWorld (<[l := lg]> (heap w)) (defaultLogger w) (conns w) (trace w).

Definition store (l : nat) (lg : Logger) : M unit := fun w =>
  Ret tt (stored w l lg).

(** A struct that escapes to the heap gets a fresh address. *)
Definition alloc (lg : Logger) : M nat := fun w =>
  Ret (length (heap w))
      (mkWorld (heap w ++ [lg]) (defaultLogger w) (conns w) (trace w)).

Definition get_default : M nat := fun w => Ret (defaultLogger w) w.

Definition set_default (l : nat) : M unit := fun w =>
  Ret tt (mkWorld (heap w) l (conns w) (trace w)).

(** The world after the events [evs] have happened. *)
Definition logged (w : World) (evs : list Event) : World :=
  mkWorld (heap w) (defaultLogger w) (conns w) (trace w ++ evs).

Definition emit (evs : list Event) : M unit := fun w => Ret tt (logged w evs).

Definition history : M (list Event) := fun w => Ret (trace w) w.

(** Field updates. *)
Definition with_flag (f : Z) (c : log_Logger) : log_Logger :=
  log_New (log_out c) (log_prefix c) f.

Definition with_closers (cs : list Writer) (lg : Logger) : Logger :=
  mkLogger (infoLog lg) (warnLog lg) (errorLog lg) (fatalLog lg)
           cs (initialized lg) (level lg).

Definition with_initialized (b : bool) (lg : Logger) : Logger :=
  mkLogger (infoLog lg) (warnLog lg) (errorLog lg) (fatalLog lg)
           (closers lg) b (level lg).

Definition with_level (lvl : Z) (lg : Logger) : Logger :=
  mkLogger (infoLog lg) (warnLog lg) (errorLog lg) (fatalLog lg)
           (closers lg) (initialized lg) lvl.

Definition with_flags (f : Z) (lg : Logger) : Logger :=
  mkLogger (with_flag f (infoLog lg)) (with_flag f (warnLog lg))
           (with_flag f (errorLog lg)) (with_flag f (fatalLog lg))
           (closers lg) (initialized lg) (level lg).

(** * The package *)

Section Gologger.
Context {RT : Runtime}.

(** ** Package [log] and [io.MultiWriter] *)

Fixpoint ends_with_newline (s : string) : bool :=
  match s with
  | EmptyString => false
  | String c EmptyString => bool_decide (c = ascii_of_nat 10)
  | String _ rest => ends_with_newline rest
  end.

(** The bytes [log.Logger.Output] hands to its writer: the prefix (at the
    start of the line, or right before the message when [Lmsgprefix] is
    set), the header the flags ask for, the message, and a newline when the
    message does not end in one. *)
Definition formatRecord (c : log_Logger) (calldepth : Z) (s : string) : string :=
  (if (Z.land (log_flag c) Lmsgprefix =? 0)%Z then log_prefix c else "")
  +:+ header (log_flag c) calldepth
  +:+ (if (Z.land (log_flag c) Lmsgprefix =? 0)%Z then "" else log_prefix c)
  +:+ s
  +:+ (if ends_with_newline s then "" else nl).

(** One [Write] on an [io.MultiWriter]: the same bytes to each writer, in
    order; the first writer that fails ends it, and the writers after that
    one are not written to. *)
Fixpoint MultiWriter_Write (ws : list Writer) (p : string) : M (option error) :=
  match ws with
  | [] => ret None
  | w :: rest =>
      let* h := history in
      run emit [EWrite w p] then
      match writer_Write h w p with
      | Some err => ret (Some err)
      | None => MultiWriter_Write rest p
      end
  end.

Definition log_Output (c : log_Logger) (calldepth : Z) (s : string)
  : M (option error) :=
  MultiWriter_Write (log_out c) (formatRecord c calldepth s).

(** ** gologger_syslog.go *)

Definition syslog_dial (priority : Z) (tag : string) : M (Writer + error) :=
  fun w =>
    match syslog_New (conns w) priority tag with
    | Some err => Ret (inr err) w
    | None =>
        Ret (inl (SyslogW (conns w) priority tag))
            (mkWorld (heap w) (defaultLogger w) (S (conns w)) (trace w))
    end.

Definition setup (src : string)
  : M (option Writer * option Writer * option Writer * option error) :=
  let facility := LOG_USER in
  let* r := syslog_dial (Z.lor facility LOG_NOTICE) src in
  match r with
  | inr err => ret (None, None, None, Some err)
  | inl il =>
      let* r := syslog_dial (Z.lor facility LOG_WARNING) src in
      match r with
      | inr err => ret (None, None, None, Some err)
      | inl wl =>
          let* r := syslog_dial (Z.lor facility LOG_ERR) src in
          match r with
          | inr err => ret (None, None, None, Some err)
          | inl el => ret (Some il, Some wl, Some el, None)
          end
      end
  end.

(** ** gologger.go *)

Definition init_logger : M unit :=
  let* l := alloc (mkLogger (log_New [Stderr] (initText +:+ labelInfo) flags)
                            (log_New [Stderr] (initText +:+ labelWarn) flags)
                            (log_New [Stderr] (initText +:+ labelErr) flags)
                            (log_New [Stderr] (initText +:+ labelFatal) flags)
                            [] false 0) in
  set_default l.

(** [output] drops what [Output] returns. *)
Definition output (l : nat) (s : Z) (depth : Z) (txt : string) : M unit :=
  if (s =? sInfo)%Z then
    let* lg := deref l in
    let* _ := log_Output (infoLog lg) (int_add 3 depth) txt in ret tt
  else if (s =? sWarn)%Z then
    let* lg := deref l in
    let* _ := log_Output (warnLog lg) (int_add 3 depth) txt in ret tt
  else if (s =? sError)%Z then
    let* lg := deref l in
    let* _ := log_Output (errorLog lg) (int_add 3 depth) txt in ret tt
  else if (s =? sFatal)%Z then
    let* lg := deref l in
    let* _ := log_Output (fatalLog lg) (int_add 3 depth) txt in ret tt
  else panic (Sprintln [VString "[FATAL]: Unrecognized Severity:"; VInt s]).

(** The loop of [Logger.Close]: every closer is closed, in order; a failure
    is printed to standard error and the loop goes on. *)
Fixpoint close_all (cs : list Writer) : M unit :=
  match cs with
  | [] => ret tt
  | c :: rest =>
      let* h := history in
      run emit [EClose c] then
      run match closer_Close h c with
          | Some err =>
              emit [EWrite Stderr
                      (Sprintf ("[ERROR]: Failed to close log %v: %v" +:+ nl)
                               [VWriter c; VError err])]
          | None => ret tt
          end then
      close_all rest
  end.

Definition Logger_Close (l : nat) : M unit :=
  let* lg := deref l in
  if negb (initialized lg) then ret tt
  else close_all (closers lg).

Definition Close : M unit :=
  let* d := get_default in Logger_Close d.

(** The loop of [Init] that collects the writers that are also closers;
    a nil writer fails the type assertion. *)
Definition collect_closers (ws : list (option Writer)) (lg : Logger) : Logger :=
  fold_left
    (fun lg w =>
       match w with
       | Some c => if is_Closer c then with_closers (closers lg ++ [c]) lg else lg
       | None => lg
       end)
    ws lg.

Definition append_opt (ws : list Writer) (w : option Writer) : list Writer :=
  match w with
  | Some x => ws ++ [x]
  | None => ws
  end.

Definition Logger_Error (l : nat) (v : list Value) : M unit :=
  output l sError 0 (Sprint v).

Definition Init (name : string) (verbose systemLog : bool) (logFd : Writer)
  : M nat :=
  let* (il, wl, el, syslogErr) :=
    (if systemLog then setup name else ret (None, None, None, None)) in
  let iLogs := [logFd] in
  let wLogs := [logFd] in
  let eLogs := [logFd] in
  let iLogs := append_opt iLogs il in
  let wLogs := append_opt wLogs wl in
  let eLogs := append_opt eLogs el in
  let eLogs := eLogs ++ [Stderr] in
  let iLogs := if verbose then iLogs ++ [Stdout] else iLogs in
  let wLogs := if verbose then wLogs ++ [Stdout] else wLogs in
  let l := mkLogger (log_New iLogs labelInfo flags)
                    (log_New wLogs labelWarn flags)
                    (log_New eLogs labelErr flags)
                    (log_New eLogs labelFatal flags)
                    [] false 0 in
  let l := collect_closers [Some logFd; il; wl; el] l in
  let l := with_initialized true l in
  let* a := alloc l in
  run match syslogErr with
      | Some err => Logger_Error a [VError err]
      | None => ret tt
      end then
  let* d := get_default in
  let* dl := deref d in
  run (if negb (initialized dl) then set_default a else ret tt) then
  ret a.

(** *** Info logs *)

Definition Logger_Info (l : nat) (v : list Value) : M unit :=
  output l sInfo 0 (Sprint v).
Definition Logger_InfoDepth (l : nat) (depth : Z) (v : list Value) : M unit :=
  output l sInfo depth (Sprint v).
Definition Logger_Infoln (l : nat) (v : list Value) : M unit :=
  output l sInfo 0 (Sprintln v).
Definition Logger_Infof (l : nat) (format : string) (v : list Value) : M unit :=
  output l sInfo 0 (Sprintf format v).

Definition Info (v : list Value) : M unit :=
  let* d := get_default in output d sInfo 0 (Sprint v).
Definition InfoDepth (depth : Z) (v : list Value) : M unit :=
  let* d := get_default in output d sInfo depth (Sprint v).
Definition Infoln (v : list Value) : M unit :=
  let* d := get_default in output d sInfo 0 (Sprintln v).
Definition Infof (format : string) (v : list Value) : M unit :=
  let* d := get_default in output d sInfo 0 (Sprintf format v).

(** *** Warning logs *)

Definition Logger_Warning (l : nat) (v : list Value) : M unit :=
  output l sWarn 0 (Sprint v).
Definition Logger_WarningDepth (l : nat) (depth : Z) (v : list Value) : M unit :=
  output l sWarn depth (Sprint v).
Definition Logger_Warningln (l : nat) (v : list Value) : M unit :=
  output l sWarn 0 (Sprintln v).
Definition Logger_Warningf (l : nat) (format : string) (v : list Value) : M unit :=
  output l sWarn 0 (Sprintf format v).

Definition Warning (v : list Value) : M unit :=
  let* d := get_default in output d sWarn 0 (Sprint v).
Definition WarningDepth (depth : Z) (v : list Value) : M unit :=
  let* d := get_default in output d sWarn depth (Sprint v).
Definition Warningln (v : list Value) : M unit :=
  let* d := get_default in output d sWarn 0 (Sprintln v).
Definition Warningf (format : string) (v : list Value) : M unit :=
  let* d := get_default in output d sWarn 0 (Sprintf format v).

(** *** Error logs *)

Definition Logger_ErrorDepth (l : nat) (depth : Z) (v : list Value) : M unit :=
  output l sError depth (Sprint v).
Definition Logger_Errorln (l : nat) (v : list Value) : M unit :=
  output l sError 0 (Sprintln v).
Definition Logger_Errorf (l : nat) (format : string) (v : list Value) : M unit :=
  output l sError 0 (Sprintf format v).

Definition Error (v : list Value) : M unit :=
  let* d := get_default in output d sError 0 (Sprint v).
Definition ErrorDepth (depth : Z) (v : list Value) : M unit :=
  let* d := get_default in output d sError depth (Sprint v).
Definition Errorln (v : list Value) : M unit :=
  let* d := get_default in output d sError 0 (Sprintln v).
Definition Errorf (format : string) (v : list Value) : M unit :=
  let* d := get_default in output d sError 0 (Sprintf format v).

(** *** Fatal logs *)

Definition Logger_Fatal (l : nat) (v : list Value) : M unit :=
  run output l sFatal 0 (Sprint v) then
  run Logger_Close l then
  os_Exit 1.
Definition Logger_FatalDepth (l : nat) (depth : Z) (v : list Value) : M unit :=
  run output l sFatal depth (Sprint v) then
  run Logger_Close l then
  os_Exit 1.
Definition Logger_Fatalln (l : nat) (v : list Value) : M unit :=
  run output l sFatal 0 (Sprintln v) then
  run Logger_Close l then
  os_Exit 1.
Definition Logger_Fatalf (l : nat) (format : string) (v : list Value) : M unit :=
  run output l sFatal 0 (Sprintf format v) then
  run Logger_Close l then
  os_Exit 1.

Definition Fatal (v : list Value) : M unit :=
  run (let* d := get_default in output d sFatal 0 (Sprint v)) then
  run (let* d := get_default in Logger_Close d) then
  os_Exit 1.
Definition FatalDepth (depth : Z) (v : list Value) : M unit :=
  run (let* d := get_default in output d sFatal depth (Sprint v)) then
  run (let* d := get_default in Logger_Close d) then
  os_Exit 1.
Definition Fatalln (v : list Value) : M unit :=
  run (let* d := get_default in output d sFatal 0 (Sprintln v)) then
  run (let* d := get_default in Logger_Close d) then
  os_Exit 1.
Definition Fatalf (format : string) (v : list Value) : M unit :=
  run (let* d := get_default in output d sFatal 0 (Sprintf format v)) then
  run (let* d := get_default in Logger_Close d) then
  os_Exit 1.

(** *** Verbosity *)

Definition Logger_SetLevel (l : nat) (lvl : Z) : M unit :=
  let* lg := deref l in
  run store l (with_level lvl lg) then
  output l sInfo 0 (Sprintf "Info verbosity set to %d" [VInt lvl]).

Definition SetLevel (lvl : Z) : M unit :=
  let* d := get_default in Logger_SetLevel d lvl.

Definition Logger_Verbosity (l : nat) (lvl : Z) : M Verbose :=
  let* lg := deref l in
  ret (mkVerbose (level lg >=? lvl)%Z l).

Definition Verbosity (lvl : Z) : M Verbose :=
  let* d := get_default in Logger_Verbosity d lvl.

Definition Verbose_Info (v : Verbose) (args : list Value) : M unit :=
  if enabled v then output (logger v) sInfo 0 (Sprint args) else ret tt.

Definition Verbose_Infoln (v : Verbose) (args : list Value) : M unit :=
  if enabled v then output (logger v) sInfo 0 (Sprintln args) else ret tt.

Definition Verbose_Infof (v : Verbose) (format : string) (args : list Value)
  : M unit :=
  if enabled v then output (logger v) sInfo 0 (Sprintf format args) else ret tt.

Definition SetFlags (flag : Z) : M unit :=
  let* d := get_default in
  let* lg := deref d in
  store d (with_flags flag lg).

(** ** The process *)

(** The state of the package once its [init] function has run. *)
Definition empty_world : World := mkWorld [] 0 0 [].

Definition boot : World :=
  match init_logger empty_world with
  | Ret _ w => w
  | Exited _ w | Panicked _ w => w
  end.

(** The exported API, as calls a client can make one after the other.  A
    [Target] is the default logger (the package-level functions) or a
    [*Logger] the client holds (the methods). *)
Inductive Target := Default | At (l : nat).
Inductive Severity := SevInfo | SevWarning | SevError | SevFatal.
Inductive Shape :=
| Print (v : list Value)
| PrintDepth (depth : Z) (v : list Value)
| Println (v : list Value)
| Printf (format : string) (v : list Value).
Inductive VShape :=
| VPrint (args : list Value)
| VPrintln (args : list Value)
| VPrintf (format : string) (args : list Value).

Inductive Call :=
| CInit (name : string) (verbose systemLog : bool) (logFd : Writer)
| CClose (t : Target)
| CLog (t : Target) (s : Severity) (sh : Shape)
| CSetLevel (t : Target) (lvl : Z)
| CVerbose (t : Target) (lvl : Z) (sh : VShape)
| CSetFlags (flag : Z).

Definition exec_log (t : Target) (s : Severity) (sh : Shape) : M unit :=
  match t, s, sh with
  | At l, SevInfo, Print v => Logger_Info l v
  | At l, SevInfo, PrintDepth d v => Logger_InfoDepth l d v
  | At l, SevInfo, Println v => Logger_Infoln l v
  | At l, SevInfo, Printf f v => Logger_Infof l f v
  | Default, SevInfo, Print v => Info v
  | Default, SevInfo, PrintDepth d v => InfoDepth d v
  | Default, SevInfo, Println v => Infoln v
  | Default, SevInfo, Printf f v => Infof f v
  | At l, SevWarning, Print v => Logger_Warning l v
  | At l, SevWarning, PrintDepth d v => Logger_WarningDepth l d v
  | At l, SevWarning, Println v => Logger_Warningln l v
  | At l, SevWarning, Printf f v => Logger_Warningf l f v
  | Default, SevWarning, Print v => Warning v
  | Default, SevWarning, PrintDepth d v => WarningDepth d v
  | Default, SevWarning, Println v => Warningln v
  | Default, SevWarning, Printf f v => Warningf f v
  | At l, SevError, Print v => Logger_Error l v
  | At l, SevError, PrintDepth d v => Logger_ErrorDepth l d v
  | At l, SevError, Println v => Logger_Errorln l v
  | At l, SevError, Printf f v => Logger_Errorf l f v
  | Default, SevError, Print v => Error v
  | Default, SevError, PrintDepth d v => ErrorDepth d v
  | Default, SevError, Println v => Errorln v
  | Default, SevError, Printf f v => Errorf f v
  | At l, SevFatal, Print v => Logger_Fatal l v
  | At l, SevFatal, PrintDepth d v => Logger_FatalDepth l d v
  | At l, SevFatal, Println v => Logger_Fatalln l v
  | At l, SevFatal, Printf f v => Logger_Fatalf l f v
  | Default, SevFatal, Print v => Fatal v
  | Default, SevFatal, PrintDepth d v => FatalDepth d v
  | Default, SevFatal, Println v => Fatalln v
  | Default, SevFatal, Printf f v => Fatalf f v
  end.

Definition exec_verbose (v : Verbose) (sh : VShape) : M unit :=
  match sh with
  | VPrint args => Verbose_Info v args
  | VPrintln args => Verbose_Infoln v args
  | VPrintf f args => Verbose_Infof v f args
  end.

Definition exec (c : Call) : M unit :=
  match c with
  | CInit name verbose systemLog logFd =>
      let* _ := Init name verbose systemLog logFd in ret tt
  | CClose Default => Close
  | CClose (At l) => Logger_Close l
  | CLog t s sh => exec_log t s sh
  | CSetLevel Default lvl => SetLevel lvl
  | CSetLevel (At l) lvl => Logger_SetLevel l lvl
  | CVerbose Default lvl sh => let* v := Verbosity lvl in exec_verbose v sh
  | CVerbose (At l) lvl sh => let* v := Logger_Verbosity l lvl in exec_verbose v sh
  | CSetFlags flag => SetFlags flag
  end.

(** A script of calls; the process stops at the first exit or panic. *)
Fixpoint exec_all (cs : list Call) : M unit :=
  match cs with
  | [] => ret tt
  | c :: rest => run exec c then exec_all rest
  end.

(** The worlds a client can bring about: from [boot], by calls that return. *)
Inductive reachable : World -> Prop :=
| reachable_boot : reachable boot
| reachable_step c w w' :
    reachable w -> exec c w = Ret tt w' -> reachable w'.

(** ** Vocabulary of the statements *)

(** The channel [output] selects for a severity. *)
Definition channel (lg : Logger) (s : Z) : log_Logger :=
  if (s =? sInfo)%Z then infoLog lg
  else if (s =? sWarn)%Z then warnLog lg
  else if (s =? sError)%Z then errorLog lg
  else fatalLog lg.

Definition label (s : Z) : string :=
  if (s =? sInfo)%Z then labelInfo
  else if (s =? sWarn)%Z then labelWarn
  else if (s =? sError)%Z then labelErr
  else labelFatal.

Definition is_severity (s : Z) : Prop :=
  s = sInfo \/ s = sWarn \/ s = sError \/ s = sFatal.

(** What one [Write] on an [io.MultiWriter] does to the world, given the
    history so far: the writers are written to in order, up to and including
    the first one that fails. *)
Fixpoint write_events (h : list Event) (ws : list Writer) (p : string)
  : list Event :=
  match ws with
  | [] => []
  | w :: rest =>
      EWrite w p ::
      match writer_Write h w p with
      | Some _ => []
      | None => write_events (h ++ [EWrite w p]) rest p
      end
  end.

(** Every one of the writers [ws], written to in order from history [h],
    accepts the bytes [p]. *)
Fixpoint accepted (h : list Event) (ws : list Writer) (p : string) : Prop :=
  match ws with
  | [] => True
  | w :: rest =>
      writer_Write h w p = None /\ accepted (h ++ [EWrite w p]) rest p
  end.

(** One record on a channel: what a single [Output] does to the world. *)
Definition record_events (h : list Event) (c : log_Logger) (depth : Z)
    (txt : string) : list Event :=
  write_events h (log_out c) (formatRecord c (int_add 3 depth) txt).

(** The logger as [init_logger] leaves it, and as [Init] leaves it. *)
Definition pristine (lg : Logger) : Prop :=
  initialized lg = false /\ closers lg = [] /\
  forall s, is_severity s ->
    log_out (channel lg s) = [Stderr] /\
    log_prefix (channel lg s) = initText +:+ label s.

Definition wired (lg : Logger) : Prop :=
  initialized lg = true /\
  forall s, is_severity s -> log_prefix (channel lg s) = label s.

Record wf (w : World) : Prop := {
  wf_default : is_Some (heap w !! defaultLogger w);
  wf_shape : forall l lg, heap w !! l = Some lg -> pristine lg \/ wired lg
}.

(** What [close_all] does to the world, given the history so far. *)
Fixpoint close_events (h : list Event) (cs : list Writer) : list Event :=
  match cs with
  | [] => []
  | c :: rest =>
      let evs :=
        EClose c ::
        match closer_Close h c with
        | Some err =>
            [EWrite Stderr
               (Sprintf ("[ERROR]: Failed to close log %v: %v" +:+ nl)
                        [VWriter c; VError err])]
        | None => []
        end in
      evs ++ close_events (h ++ evs) rest
  end.

(** The diagnostic [Logger.Close] prints for the closer [c] that reported
    [err]. *)
Definition close_diagnostic (c : Writer) (err : error) : Event :=
  EWrite Stderr
    (Sprintf ("[ERROR]: Failed to close log %v: %v" +:+ nl)
             [VWriter c; VError err]).

(** The [Close] calls among some events, in order. *)
Definition closes_of (evs : list Event) : list Writer :=
  omap (fun e => match e with EClose c => Some c | EWrite _ _ => None end) evs.

(** The writes among some events, in order. *)
Definition writes_of (evs : list Event) : list (Writer * string) :=
  omap (fun e => match e with EWrite w p => Some (w, p) | EClose _ => None end) evs.

(** The events [evs] of one run of the loop of [Logger.Close] over the
    closers [cs], started after the history [h], report every failure and
    nothing else: whichever closer [c] of the list one looks at, [evs] holds
    its [Close] after those of the closers before it and before those of
    the closers after it; if that [Close] reported an error, the very next
    event is the diagnostic for it on standard error, and if it reported
    none, the next event is not a write. *)
Definition reports_failures
    (h : list Event) (cs : list Writer) (evs : list Event) : Prop :=
  forall pre c post,
    cs = pre ++ c :: post ->
    exists before after,
      evs = before ++ EClose c :: after /\
      closes_of before = pre /\ closes_of after = post /\
      match closer_Close (h ++ before) c with
      | Some err => exists rest, after = close_diagnostic c err :: rest
      | None => match after with EWrite _ _ :: _ => False | _ => True end
      end.

(** The non-nil writers of a list that are closers, in order. *)
Definition closable (ws : list (option Writer)) : list Writer :=
  flat_map (fun w => match w with
                     | Some c => if is_Closer c then [c] else []
                     | None => []
                     end) ws.

(** The world after [n] more syslog connections were opened. *)
Definition connected (w : World) (n : nat) : World :=
  mkWorld (heap w) (defaultLogger w) (conns w + n) (trace w).

(** The struct [Init] builds from its arguments and what [setup] gave. *)
Definition built (verbose : bool) (logFd : Writer)
    (il wl el : option Writer) : Logger :=
  let stdout := if verbose then [Stdout] else [] in
  mkLogger
    (log_New (append_opt [logFd] il ++ stdout) labelInfo flags)
    (log_New (append_opt [logFd] wl ++ stdout) labelWarn flags)
    (log_New (append_opt [logFd] el ++ [Stderr]) labelErr flags)
    (log_New (append_opt [logFd] el ++ [Stderr]) labelFatal flags)
    (closable [Some logFd; il; wl; el])
    true 0.

(** The world [Init] leaves, given what [setup] did. *)
Definition after_Init (verbose : bool) (logFd : Writer)
    (il wl el : option Writer) (syslogErr : option error)
    (w w1 : World) (dl : Logger) : World :=
  let lg := built verbose logFd il wl el in
  mkWorld (heap w ++ [lg])
          (if initialized dl then defaultLogger w else length (heap w))
          (conns w1)
          (trace w ++ match syslogErr with
                      | Some err =>
                          record_events (trace w) (errorLog lg) 0
                                        (Sprint [VError err])
                      | None => []
                      end).

(** Two structs wired alike: only flags and level may differ. *)
Definition same_wiring (a b : Logger) : Prop :=
  initialized a = initialized b /\ closers a = closers b /\
  forall s, log_out (channel a s) = log_out (channel b s) /\
            log_prefix (channel a s) = log_prefix (channel b s).

(** What one returning call can have done: touched only the outside world,
    or changed the flags or level of one struct, or been an [Init]. *)
Inductive step_shape (w w' : World) : Prop :=
| step_logged evs :
    w' = logged w evs -> step_shape w w'
| step_stored l lg lg' evs :
    heap w !! l = Some lg -> same_wiring lg lg' ->
    w' = logged (stored w l lg') evs -> step_shape w w'
| step_Init verbose logFd il wl el syslogErr n dl :
    heap w !! defaultLogger w = Some dl ->
    w' = after_Init verbose logFd il wl el syslogErr w (connected w n) dl ->
    step_shape w w'.

(** What [setup] can have given [Init]. *)
Definition syslog_outcome (systemLog : bool)
    (il wl el : option Writer) (syslogErr : option error) : Prop :=
  (systemLog = false /\ il = None /\ wl = None /\ el = None /\ syslogErr = None)
  \/ (systemLog = true /\ il = None /\ wl = None /\ el = None /\
      is_Some syslogErr)
  \/ (systemLog = true /\ syslogErr = None /\
      exists a b c, il = Some a /\ wl = Some b /\ el = Some c /\
                    is_syslog a = true /\ is_syslog b = true /\ is_syslog c = true).

Definition is_Init (c : Call) : bool :=
  match c with CInit _ _ _ _ => true | _ => false end.

(** ** The verbosity gate *)

(** The text a [Verbose] method formats. *)
Definition vshape_text (sh : VShape) : string :=
  match sh with
  | VPrint args => Sprint args
  | VPrintln args => Sprintln args
  | VPrintf format args => Sprintf format args
  end.

(** The receiver, depth and text of a logging call. *)
Definition target_addr (t : Target) (w : World) : nat :=
  match t with Default => defaultLogger w | At l => l end.

Definition shape_depth (sh : Shape) : Z :=
  match sh with PrintDepth depth _ => depth | _ => 0%Z end.

Definition shape_text (sh : Shape) : string :=
  match sh with
  | Print v | PrintDepth _ v => Sprint v
  | Println v => Sprintln v
  | Printf format v => Sprintf format v
  end.

(** ** Vocabulary for the whole API *)

(** The world an outcome leaves behind. *)
Definition world_of {A} (o : Outcome A) : World :=
  match o with
  | Ret _ w | Exited _ w | Panicked _ w => w
  end.

(** The constant a logging function hands to [output]. *)
Definition severity_code (s : Severity) : Z :=
  match s with
  | SevInfo => sInfo
  | SevWarning => sWarn
  | SevError => sError
  | SevFatal => sFatal
  end.

(** The receiver of a call, for the calls that have one. *)
Definition call_target (c : Call) : option Target :=
  match c with
  | CClose t | CLog t _ _ | CSetLevel t _ | CVerbose t _ _ => Some t
  | CInit _ _ _ _ | CSetFlags _ => None
  end.

(** The calls whose source closes destinations: [Close] and the Fatal logs. *)
Definition closes_destinations (c : Call) : bool :=
  match c with
  | CClose _ | CLog _ SevFatal _ => true
  | _ => false
  end.

(** The priorities [setup] dials with, in order. *)
Definition dial_priorities : list Z :=
  [Z.lor LOG_USER LOG_NOTICE; Z.lor LOG_USER LOG_WARNING; Z.lor LOG_USER LOG_ERR].

(** The form of the logging function a [Verbose] method stands for. *)
Definition shape_of (sh : VShape) : Shape :=
  match sh with
  | VPrint args => Print args
  | VPrintln args => Println args
  | VPrintf format args => Printf format args
  end.

(** The channels of a struct all carry the flags [f]. *)
Definition all_flags (f : Z) (lg : Logger) : Prop :=
  log_flag (infoLog lg) = f /\ log_flag (warnLog lg) = f /\
  log_flag (errorLog lg) = f /\ log_flag (fatalLog lg) = f.

End Gologger.

(** ** A concrete runtime

    A runtime to evaluate the package on: [fmt] for the operands used here
    (strings are printed as they are, [Sprint] puts a space between two
    operands when neither is a string, [Sprintf] replaces each verb by the
    next operand), a clock stopped at 2009/11/10 23:00:00 and a call site
    main.go:23, a system log that is up or down, and destinations that, like
    an [*os.File], report an error when they are written to after they were
    closed or closed a second time.  The caller's writer number 0 stands for
    a file opened read-only: every write to it fails. *)

Definition render (v : Value) : string :=
  match v with
  | VString s => s
  | VInt n => NilZero.string_of_int (Z.to_int n)
  | VError e => e
  | VWriter Stdout => "&{stdout}"
  | VWriter Stderr => "&{stderr}"
  | VWriter (SyslogW _ _ tag) => "&{syslog " +:+ tag +:+ "}"
  | VWriter (CallerW _ _) => "&{file}"
  end.

Definition is_string (v : Value) : bool :=
  match v with VString _ => true | _ => false end.

Fixpoint sprint_from (first prevString : bool) (vs : list Value) : string :=
  match vs with
  | [] => ""
  | v :: rest =>
      (if negb first && negb (is_string v) && negb prevString then " " else "")
      +:+ render v +:+ sprint_from false (is_string v) rest
  end.

Fixpoint sprintln_from (first : bool) (vs : list Value) : string :=
  match vs with
  | [] => nl
  | v :: rest =>
      (if first then "" else " ") +:+ render v +:+ sprintln_from false rest
  end.

Fixpoint sprintf_from (format : string) (vs : list Value) : string :=
  match format with
  | EmptyString => ""
  | String c EmptyString => String c EmptyString
  | String c (String verb rest as tail) =>
      if bool_decide (c = "%"%char) then
        if bool_decide (verb = "%"%char) then String verb (sprintf_from rest vs)
        else match vs with
             | v :: vs' => render v +:+ sprintf_from rest vs'
             | [] => "%!" +:+ String verb "(MISSING)" +:+ sprintf_from rest []
             end
      else String c (sprintf_from tail vs)
  end.

Definition demo_header (flag calldepth : Z) : string :=
  (if (Z.land flag Ldate =? 0)%Z then "" else "2009/11/10 ")
  +:+ (if (Z.land flag (Z.lor Ltime Lmicroseconds) =? 0)%Z then ""
       else "23:00:00"
            +:+ (if (Z.land flag Lmicroseconds =? 0)%Z then "" else ".000000")
            +:+ " ")
  +:+ (if (Z.land flag (Z.lor Lshortfile Llongfile) =? 0)%Z then ""
       else (if (Z.land flag Lshortfile =? 0)%Z then "/src/main.go" else "main.go")
            +:+ ":23: ").

Definition demo (syslog_up : bool) : Runtime := {|
  Sprint := sprint_from true false;
  Sprintln := sprintln_from true;
  Sprintf := sprintf_from;
  header := demo_header;
  syslog_New := fun _ _ _ =>
    if syslog_up then None else Some "Unix syslog delivery error";
  writer_Write := fun h w _ =>
    match w with
    | CallerW 0 _ => Some "bad file descriptor"
    | _ => if bool_decide (EClose w ∈ h) then Some "file already closed"
           else None
    end;
  closer_Close := fun h c =>
    if bool_decide (EClose c ∈ h) then Some "file already closed" else None
|}.

(** The same runtime with a system log that accepts [up_to] connections and
    refuses the ones after. *)
Definition demo_flaky (up_to : nat) : Runtime := {|
  Sprint := sprint_from true false;
  Sprintln := sprintln_from true;
  Sprintf := sprintf_from;
  header := demo_header;
  syslog_New := fun n _ _ =>
    if n <? up_to then None else Some "Unix syslog delivery error";
  writer_Write := writer_Write (Runtime := demo true);
  closer_Close := closer_Close (Runtime := demo true)
|}.

Definition file1 : Writer := CallerW 1 true.
Definition buffer1 : Writer := CallerW 2 false.

(** * Properties *)

Section Properties.
Context {RT : Runtime}.

(** ** Basic facts *)

Lemma logged_nil w : logged w [] = w.
Proof. destruct w; unfold logged; simpl. by rewrite app_nil_r. Qed.

Lemma logged_logged w a b : logged (logged w a) b = logged w (a ++ b).
Proof. unfold logged; simpl. by rewrite app_assoc. Qed.

Lemma MultiWriter_Write_ok ws p w :
  exists r, MultiWriter_Write ws p w
            = Ret r (logged w (write_events (trace w) ws p)).
Proof.
  revert w. induction ws as [| d rest IH]; intros w; simpl.
  - exists None. unfold ret. by rewrite logged_nil.
  - unfold bind, history, emit. simpl.
    destruct (writer_Write (trace w) d p) as [err |].
    + by exists (Some err).
    + destruct (IH (logged w [EWrite d p])) as [r ->]. exists r.
      by rewrite logged_logged.
Qed.

Lemma output_ok l lg s depth txt w :
  heap w !! l = Some lg -> is_severity s ->
  output l s depth txt w
  = Ret tt (logged w (record_events (trace w) (channel lg s) depth txt)).
Proof.
  intros Hl Hs. unfold output, bind, deref, log_Output, channel, record_events.
  destruct Hs as [-> | [-> | [-> | ->]]]; simpl; rewrite Hl;
    match goal with
    | |- context [MultiWriter_Write ?ws ?p w] =>
        destruct (MultiWriter_Write_ok ws p w) as [r ->]
    end; reflexivity.
Qed.



Lemma write_events_single h d p : write_events h [d] p = [EWrite d p].
Proof. simpl. by destruct (writer_Write h d p). Qed.

Lemma output_nil l s depth txt w :
  heap w !! l = None -> is_severity s ->
  output l s depth txt w = Panicked nil_dereference w.
Proof.
  intros Hl Hs. unfold output, bind, deref.
  destruct Hs as [-> | [-> | [-> | ->]]]; simpl; by rewrite Hl.
Qed.

Lemma close_all_ok cs w :
  close_all cs w = Ret tt (logged w (close_events (trace w) cs)).
Proof.
  revert w. induction cs as [| c rest IH]; intros w; simpl.
  - unfold ret. by rewrite logged_nil.
  - unfold bind, history, emit. simpl.
    destruct (closer_Close (trace w) c) as [err |]; simpl;
      unfold emit, ret; rewrite IH, logged_logged; simpl.
    + rewrite logged_logged. simpl. by rewrite <- app_assoc.
    + done.
Qed.

Lemma closes_of_close_events h cs : closes_of (close_events h cs) = cs.
Proof.
  revert h. induction cs as [| c rest IH]; intros h; simpl; [done |].
  unfold closes_of in *. simpl. f_equal.
  destruct (closer_Close h c); simpl; apply IH.
Qed.

Lemma writes_of_close_events h cs :
  Forall (fun wp => wp.1 = Stderr) (writes_of (close_events h cs)).
Proof.
  revert h. induction cs as [| c rest IH]; intros h; simpl; [constructor |].
  unfold writes_of in *. simpl.
  destruct (closer_Close h c); simpl; [constructor; [done |] |]; apply IH.
Qed.

Lemma Logger_Close_ok l lg w :
  heap w !! l = Some lg ->
  Logger_Close l w =
    Ret tt (if initialized lg
            then logged w (close_events (trace w) (closers lg))
            else w).
Proof.
  intros Hl. unfold Logger_Close, bind, deref. rewrite Hl.
  destruct (initialized lg); simpl; [apply close_all_ok | done].
Qed.

Lemma connected_0 w : connected w 0 = w.
Proof. destruct w; unfold connected; simpl. f_equal. lia. Qed.

Lemma setup_cases src w :
  (exists err n, setup src w = Ret (None, None, None, Some err) (connected w n))
  \/ (exists il wl el,
        setup src w = Ret (Some il, Some wl, Some el, None) (connected w 3) /\
        is_syslog il = true /\ is_syslog wl = true /\ is_syslog el = true).
Proof.
  unfold setup, bind, syslog_dial, ret.
  destruct (syslog_New (conns w) _ src) as [e1 |] eqn:H1; simpl.
  { left. exists e1, 0. by rewrite connected_0. }
  destruct (syslog_New (S (conns w)) _ src) as [e2 |] eqn:H2; simpl.
  { left. exists e2, 1. unfold connected. simpl. do 2 f_equal. lia. }
  destruct (syslog_New (S (S (conns w))) _ src) as [e3 |] eqn:H3; simpl.
  { left. exists e3, 2. unfold connected. simpl. do 2 f_equal. lia. }
  right.
  exists (SyslogW (conns w) (Z.lor LOG_USER LOG_NOTICE) src),
         (SyslogW (S (conns w)) (Z.lor LOG_USER LOG_WARNING) src),
         (SyslogW (S (S (conns w))) (Z.lor LOG_USER LOG_ERR) src).
  split; [| done].
  unfold connected. simpl. do 2 f_equal. lia.
Qed.

Lemma collect_closers_built (verbose : bool) (logFd : Writer)
    (il wl el : option Writer) :
  with_initialized true
    (collect_closers [Some logFd; il; wl; el]
       (mkLogger
          (log_New (if verbose then append_opt [logFd] il ++ [Stdout]
                    else append_opt [logFd] il) labelInfo flags)
          (log_New (if verbose then append_opt [logFd] wl ++ [Stdout]
                    else append_opt [logFd] wl) labelWarn flags)
          (log_New (append_opt [logFd] el ++ [Stderr]) labelErr flags)
          (log_New (append_opt [logFd] el ++ [Stderr]) labelFatal flags)
          [] false 0))
  = built verbose logFd il wl el.
Proof.
  unfold built, collect_closers, closable, with_initialized, with_closers.
  simpl.
  destruct verbose; rewrite ?app_nil_r;
    destruct (is_Closer logFd);
    destruct il as [il |]; try destruct (is_Closer il);
    destruct wl as [wl |]; try destruct (is_Closer wl);
    destruct el as [el |]; try destruct (is_Closer el); reflexivity.
Qed.

Lemma Init_ok (name : string) (verbose systemLog : bool) (logFd : Writer)
    (w : World) (dl : Logger)
    (il wl el : option Writer) (syslogErr : option error) (n : nat) :
  heap w !! defaultLogger w = Some dl ->
  (if systemLog then setup name else ret (None, None, None, None)) w
    = Ret (il, wl, el, syslogErr) (connected w n) ->
  Init name verbose systemLog logFd w
    = Ret (length (heap w))
          (after_Init verbose logFd il wl el syslogErr w (connected w n) dl).
Proof.
  intros Hd Hs. unfold Init. unfold bind at 1. rewrite Hs.
  rewrite collect_closers_built.
  set (lg := built verbose logFd il wl el).
  unfold bind at 1, alloc. simpl.
  set (w2 := mkWorld _ _ _ _).
  assert (Ha : heap w2 !! length (heap w) = Some lg).
  { subst w2. simpl. by rewrite list_lookup_middle. }
  assert (Hd2 : forall evs, heap (logged w2 evs) !! defaultLogger w = Some dl).
  { intros evs. subst w2. simpl. by apply lookup_app_l_Some. }
  unfold after_Init. fold lg.
  destruct syslogErr as [err |].
  - unfold bind at 1, Logger_Error.
    rewrite (output_ok _ lg) by (done || (right; right; left; done)).
    change (channel lg sError) with (errorLog lg).
    unfold bind, get_default, deref. simpl.
    rewrite (lookup_app_l_Some _ _ _ _ Hd).
    destruct (initialized dl); simpl; reflexivity.
  - unfold bind, ret, get_default, deref. simpl.
    rewrite (lookup_app_l_Some _ _ _ _ Hd).
    destruct (initialized dl); simpl; unfold ret, set_default; simpl;
      by rewrite app_nil_r.
Qed.

Lemma output_Ret l s depth txt w w' :
  is_severity s ->
  output l s depth txt w = Ret tt w' ->
  exists lg, heap w !! l = Some lg /\
             w' = logged w (record_events (trace w) (channel lg s) depth txt).
Proof.
  intros Hs H. destruct (heap w !! l) as [lg |] eqn:Hl.
  - rewrite (output_ok _ lg) in H by done. exists lg. split; congruence.
  - rewrite output_nil in H by done. discriminate.
Qed.

Lemma never_returns {A B} (m : M A) (m2 : M B) (code : Z) w w' :
  (run m then run m2 then os_Exit code) w = Ret tt w' -> False.
Proof.
  unfold bind, os_Exit. destruct (m w) as [? w1 | |]; try discriminate.
  destruct (m2 w1); discriminate.
Qed.

Lemma same_wiring_level lvl lg : same_wiring lg (with_level lvl lg).
Proof. by repeat split. Qed.

Lemma same_wiring_flags f lg : same_wiring lg (with_flags f lg).
Proof.
  repeat split; unfold channel; simpl;
    repeat (case_match; simpl); done.
Qed.

Lemma same_wiring_pristine a b : same_wiring a b -> pristine a -> pristine b.
Proof.
  intros (Hi & Hc & Hch) (Pi & Pc & Pch). repeat split; try congruence.
  - destruct (Hch s) as [<- _]. by apply Pch.
  - destruct (Hch s) as [_ <-]. by apply Pch.
Qed.

Lemma same_wiring_wired a b : same_wiring a b -> wired a -> wired b.
Proof.
  intros (Hi & Hc & Hch) (Pi & Pch). split; [congruence |].
  intros s Hs. destruct (Hch s) as [_ <-]. by apply Pch.
Qed.

Lemma Init_total (name : string) (verbose systemLog : bool) (logFd : Writer)
    (w : World) (dl : Logger) :
  heap w !! defaultLogger w = Some dl ->
  exists il wl el syslogErr n,
    syslog_outcome systemLog il wl el syslogErr /\
    (if systemLog then setup name else ret (None, None, None, None)) w
      = Ret (il, wl, el, syslogErr) (connected w n) /\
    Init name verbose systemLog logFd w
      = Ret (length (heap w))
            (after_Init verbose logFd il wl el syslogErr w (connected w n) dl).
Proof.
  intros Hd. destruct systemLog.
  - destruct (setup_cases name w) as [(err & n & H) | (il & wl & el & H & Hs)].
    + exists None, None, None, (Some err), n. split; [| split; [done |]].
      * right; left. by repeat split.
      * by apply Init_ok.
    + exists (Some il), (Some wl), (Some el), None, 3.
      split; [| split; [done |]].
      * right; right. do 2 (split; [done |]). by exists il, wl, el.
      * by apply Init_ok.
  - exists None, None, None, None, 0. split; [| split].
    + left. by repeat split.
    + unfold ret. by rewrite connected_0.
    + apply Init_ok; [done |]. unfold ret. by rewrite connected_0.
Qed.

Lemma Logger_Close_Ret l w w' :
  Logger_Close l w = Ret tt w' ->
  exists lg, heap w !! l = Some lg /\
             w' = if initialized lg
                  then logged w (close_events (trace w) (closers lg))
                  else w.
Proof.
  intros H. destruct (heap w !! l) as [lg |] eqn:Hl.
  - rewrite (Logger_Close_ok _ lg) in H by done. exists lg. split; congruence.
  - unfold Logger_Close, bind, deref in H. rewrite Hl in H. discriminate.
Qed.

Lemma stored_lookup w l lg lg' :
  heap w !! l = Some lg -> heap (stored w l lg') !! l = Some lg'.
Proof.
  intros H. simpl. apply list_lookup_insert_eq. by eapply lookup_lt_Some.
Qed.

Lemma Logger_SetLevel_ok l lg lvl w :
  heap w !! l = Some lg ->
  Logger_SetLevel l lvl w =
    Ret tt (logged (stored w l (with_level lvl lg))
              (record_events (trace w) (infoLog lg) 0
                 (Sprintf "Info verbosity set to %d" [VInt lvl]))).
Proof.
  intros Hl. unfold Logger_SetLevel, bind, deref, store. rewrite Hl.
  rewrite (output_ok _ (with_level lvl lg)); [done | | by left].
  by eapply stored_lookup.
Qed.

Lemma Logger_SetLevel_Ret l lvl w w' :
  Logger_SetLevel l lvl w = Ret tt w' ->
  exists lg, heap w !! l = Some lg /\
    w' = logged (stored w l (with_level lvl lg))
           (record_events (trace w) (infoLog lg) 0
              (Sprintf "Info verbosity set to %d" [VInt lvl])).
Proof.
  intros H. destruct (heap w !! l) as [lg |] eqn:Hl.
  - rewrite (Logger_SetLevel_ok _ lg) in H by done. exists lg. split; congruence.
  - unfold Logger_SetLevel, bind, deref in H. rewrite Hl in H. discriminate.
Qed.

Lemma Logger_Verbosity_ok l lg lvl w :
  heap w !! l = Some lg ->
  Logger_Verbosity l lvl w = Ret (mkVerbose (level lg >=? lvl)%Z l) w.
Proof.
  intros Hl. unfold Logger_Verbosity, bind, deref. by rewrite Hl.
Qed.

Lemma Logger_Verbosity_Ret l lvl v w w' :
  Logger_Verbosity l lvl w = Ret v w' ->
  exists lg, heap w !! l = Some lg /\ w' = w /\
             v = mkVerbose (level lg >=? lvl)%Z l.
Proof.
  intros H. destruct (heap w !! l) as [lg |] eqn:Hl.
  - rewrite (Logger_Verbosity_ok _ lg) in H by done.
    exists lg. repeat split; congruence.
  - unfold Logger_Verbosity, bind, deref in H. rewrite Hl in H. discriminate.
Qed.

Lemma exec_verbose_Ret v sh w w' :
  exec_verbose v sh w = Ret tt w' ->
  (enabled v = false /\ w' = w) \/
  (enabled v = true /\ exists lg txt,
      heap w !! logger v = Some lg /\
      w' = logged w (record_events (trace w) (infoLog lg) 0 txt)).
Proof.
  destruct sh; simpl;
    unfold Verbose_Info, Verbose_Infoln, Verbose_Infof;
    destruct (enabled v); intros H;
    try (left; split; [done |]; unfold ret in H; congruence);
    right; split; try done;
    apply output_Ret in H as (lg & Hl & ->); try (by left);
    by eexists lg, _.
Qed.

Lemma exec_log_Ret t s sh w w' :
  exec_log t s sh w = Ret tt w' -> exists evs, w' = logged w evs.
Proof.
  intros H.
  destruct t, s, sh; simpl in H;
    unfold Logger_Info, Logger_InfoDepth, Logger_Infoln, Logger_Infof,
      Info, InfoDepth, Infoln, Infof,
      Logger_Warning, Logger_WarningDepth, Logger_Warningln, Logger_Warningf,
      Warning, WarningDepth, Warningln, Warningf,
      Logger_Error, Logger_ErrorDepth, Logger_Errorln, Logger_Errorf,
      Error, ErrorDepth, Errorln, Errorf,
      Logger_Fatal, Logger_FatalDepth, Logger_Fatalln, Logger_Fatalf,
      Fatal, FatalDepth, Fatalln, Fatalf in H;
    try (exfalso; eapply never_returns; exact H);
    try (unfold bind at 1, get_default in H);
    apply output_Ret in H as (lg & _ & ->);
    solve [by eexists | unfold is_severity, sInfo, sWarn, sError, sFatal; tauto].
Qed.

Lemma exec_shape_default c w w' :
  is_Some (heap w !! defaultLogger w) ->
  exec c w = Ret tt w' ->
  step_shape w w' /\
  (is_Init c = false -> defaultLogger w' = defaultLogger w).
Proof.
  intros [dl Hd] H. destruct c as [name verbose systemLog logFd | t | t s sh
                                  | t lvl | t lvl sh | flag]; simpl in H.
  - destruct (Init_total name verbose systemLog logFd w dl Hd)
      as (il & wl & el & err & n & _ & _ & HI).
    unfold bind in H. rewrite HI in H. unfold ret in H. split; [| done].
    apply (step_Init _ _ verbose logFd il wl el err n dl Hd). congruence.
  - assert (exists l, Logger_Close l w = Ret tt w') as [l Hc].
    { destruct t as [| l]; [exists (defaultLogger w) | exists l]; exact H. }
    apply Logger_Close_Ret in Hc as (lg & Hl & ->).
    destruct (initialized lg); (split; [| done]); [by eapply step_logged |].
    apply (step_logged _ _ []). by rewrite logged_nil.
  - apply exec_log_Ret in H as [evs ->]. split; [| done]. by eapply step_logged.
  - assert (exists l, Logger_SetLevel l lvl w = Ret tt w') as [l Hc].
    { destruct t as [| l]; [exists (defaultLogger w) | exists l]; exact H. }
    apply Logger_SetLevel_Ret in Hc as (lg & Hl & ->). split; [| done].
    eapply step_stored; [done | apply (same_wiring_level lvl) | done].
  - assert (exists l v, Logger_Verbosity l lvl w = Ret v w /\
                        exec_verbose v sh w = Ret tt w') as (l & v & Hv & He).
    { destruct t; unfold Verbosity, bind, get_default in H;
        [set (l := defaultLogger w) in * |];
        unfold bind in H;
        destruct (Logger_Verbosity l lvl w) as [v w1 | |] eqn:Hv;
        try discriminate;
        destruct (Logger_Verbosity_Ret _ _ _ _ _ Hv) as (lg & _ & -> & _);
        eauto. }
    apply exec_verbose_Ret in He as [[_ ->] | (_ & lg & txt & _ & ->)];
      (split; [| done]).
    + apply (step_logged _ _ []). by rewrite logged_nil.
    + by eapply step_logged.
  - unfold SetFlags, bind, get_default, deref, store in H. rewrite Hd in H.
    injection H as <-. split; [| done].
    apply (step_stored _ _ (defaultLogger w) dl (with_flags flag dl) []);
      [done | apply same_wiring_flags |].
    by rewrite logged_nil.
Qed.

Lemma exec_shape c w w' :
  is_Some (heap w !! defaultLogger w) ->
  exec c w = Ret tt w' -> step_shape w w'.
Proof. intros Hd H. by apply (exec_shape_default c). Qed.

(** ** Invariants of the reachable worlds *)

Lemma same_wiring_refl lg : same_wiring lg lg.
Proof. by repeat split. Qed.

Lemma built_wired verbose logFd il wl el : wired (built verbose logFd il wl el).
Proof.
  split; [done |]. intros s [-> | [-> | [-> | ->]]]; reflexivity.
Qed.

Lemma boot_pristine : heap boot !! 0 = Some
  (mkLogger (log_New [Stderr] (initText +:+ labelInfo) flags)
            (log_New [Stderr] (initText +:+ labelWarn) flags)
            (log_New [Stderr] (initText +:+ labelErr) flags)
            (log_New [Stderr] (initText +:+ labelFatal) flags)
            [] false 0)
  /\ defaultLogger boot = 0 /\ length (heap boot) = 1 /\ trace boot = [].
Proof. done. Qed.

Lemma boot_wf : wf boot.
Proof.
  destruct boot_pristine as (H0 & Hd & Hlen & _). split.
  - rewrite Hd, H0. by eexists.
  - intros l lg Hl. left.
    assert (l = 0) as ->.
    { apply lookup_lt_Some in Hl. lia. }
    rewrite H0 in Hl. injection Hl as <-.
    repeat split; try done; destruct H as [-> | [-> | [-> | ->]]]; reflexivity.
Qed.

Lemma step_heap w w' l lg :
  step_shape w w' -> heap w !! l = Some lg ->
  exists lg', heap w' !! l = Some lg' /\ same_wiring lg lg'.
Proof.
  intros [evs -> | l0 lg0 lg0' evs Hl0 Hsw -> | ? ? ? ? ? ? ? ? Hd ->] Hl; simpl.
  - exists lg. split; [done | apply same_wiring_refl].
  - destruct (decide (l0 = l)) as [-> | Hne].
    + exists lg0'. split; [by eapply stored_lookup |]. congruence.
    + exists lg. rewrite list_lookup_insert_ne by done.
      split; [done | apply same_wiring_refl].
  - exists lg. split; [by apply lookup_app_l_Some | apply same_wiring_refl].
Qed.

Lemma step_default w w' dl :
  step_shape w w' -> heap w !! defaultLogger w = Some dl ->
  initialized dl = true -> defaultLogger w' = defaultLogger w.
Proof.
  intros [evs -> | l0 lg0 lg0' evs Hl0 Hsw -> | ? ? ? ? ? ? ? dl' Hd ->] Hl Hi;
    simpl; try done.
  assert (dl' = dl) as -> by congruence. by rewrite Hi.
Qed.

Lemma step_wf w w' : wf w -> step_shape w w' -> wf w'.
Proof.
  intros [[dl Hd] Hsh] Hstep. split.
  - destruct Hstep as [evs -> | l0 lg0 lg0' evs Hl0 Hsw ->
                      | ? ? ? ? ? ? ? dl' Hd' ->]; simpl.
    + by exists dl.
    + apply lookup_lt_is_Some. rewrite length_insert.
      by eapply lookup_lt_Some.
    + destruct (initialized dl').
      * exists dl. by apply lookup_app_l_Some.
      * eexists. by rewrite list_lookup_middle.
  - intros l lg Hl.
    destruct Hstep as [evs -> | l0 lg0 lg0' evs Hl0 Hsw ->
                      | verbose logFd il wl el ? ? dl' Hd' ->]; simpl in Hl.
    + by eapply Hsh.
    + destruct (decide (l0 = l)) as [-> | Hne].
      * rewrite list_lookup_insert_eq in Hl by (by eapply lookup_lt_Some).
        injection Hl as <-.
        destruct (Hsh _ _ Hl0);
          [left; by eapply same_wiring_pristine
          | right; by eapply same_wiring_wired].
      * rewrite list_lookup_insert_ne in Hl by done. by eapply Hsh.
    + apply lookup_app_Some in Hl as [Hl | [_ Hl]]; [by eapply Hsh |].
      apply list_lookup_singleton_Some in Hl as [_ <-].
      right. apply built_wired.
Qed.

Lemma exec_wf c w w' : wf w -> exec c w = Ret tt w' -> wf w'.
Proof.
  intros Hwf H. eapply step_wf; [done |].
  eapply exec_shape; [apply Hwf | done].
Qed.

Lemma reachable_wf w : reachable w -> wf w.
Proof.
  induction 1 as [| c w w' _ IH H]; [apply boot_wf | by eapply exec_wf].
Qed.

Lemma exec_all_wf cs w w' : wf w -> exec_all cs w = Ret tt w' -> wf w'.
Proof.
  revert w. induction cs as [| c rest IH]; intros w Hwf H; simpl in H.
  - unfold ret in H. congruence.
  - unfold bind in H. destruct (exec c w) as [[] w1 | |] eqn:Hc; try discriminate.
    eapply IH; [| done]. by eapply exec_wf.
Qed.

Lemma same_wiring_trans a b c :
  same_wiring a b -> same_wiring b c -> same_wiring a c.
Proof.
  intros (Hi & Hc & Hch) (Hi' & Hc' & Hch'). repeat split; try congruence.
  - destruct (Hch s) as [-> _]. apply Hch'.
  - destruct (Hch s) as [_ ->]. apply Hch'.
Qed.

(** Along a script that returns, every struct stays where it is and keeps
    its wiring. *)
Lemma exec_all_heap cs w w' l lg :
  wf w -> exec_all cs w = Ret tt w' -> heap w !! l = Some lg ->
  exists lg', heap w' !! l = Some lg' /\ same_wiring lg lg'.
Proof.
  revert w lg. induction cs as [| c rest IH]; intros w lg Hwf H Hl; simpl in H.
  - unfold ret in H. injection H as <-. exists lg.
    split; [done | apply same_wiring_refl].
  - unfold bind in H. destruct (exec c w) as [[] w1 | |] eqn:Hc; try discriminate.
    pose proof (exec_shape c w w1 (wf_default _ Hwf) Hc) as Hs.
    destruct (step_heap _ _ _ _ Hs Hl) as (lg1 & Hl1 & Hsw1).
    destruct (IH w1 lg1 (step_wf _ _ Hwf Hs) H Hl1) as (lg' & Hl' & Hsw').
    exists lg'. split; [done | by eapply same_wiring_trans].
Qed.

(** Once the default logger is initialized, no script moves the pointer. *)
Lemma exec_all_default cs w w' dl :
  wf w -> exec_all cs w = Ret tt w' ->
  heap w !! defaultLogger w = Some dl -> initialized dl = true ->
  defaultLogger w' = defaultLogger w.
Proof.
  revert w dl. induction cs as [| c rest IH]; intros w dl Hwf H Hd Hi;
    simpl in H.
  - unfold ret in H. by injection H as <-.
  - unfold bind in H. destruct (exec c w) as [[] w1 | |] eqn:Hc; try discriminate.
    pose proof (exec_shape c w w1 (wf_default _ Hwf) Hc) as Hs.
    pose proof (step_default _ _ _ Hs Hd Hi) as Hd1.
    destruct (step_heap _ _ _ _ Hs Hd) as (dl1 & Hl1 & (Hi1 & _)).
    rewrite <- Hd1 in Hl1.
    rewrite (IH w1 dl1 (step_wf _ _ Hwf Hs) H Hl1) by congruence. done.
Qed.

(** Without a call to [Init], no script moves the pointer either. *)
Lemma exec_all_no_Init cs w w' :
  forallb (fun c => negb (is_Init c)) cs = true ->
  wf w -> exec_all cs w = Ret tt w' ->
  defaultLogger w' = defaultLogger w.
Proof.
  revert w. induction cs as [| c rest IH]; intros w Hn Hwf H; simpl in *.
  - unfold ret in H. by injection H as <-.
  - apply andb_true_iff in Hn as [Hc0 Hn]. apply negb_true_iff in Hc0.
    unfold bind in H. destruct (exec c w) as [[] w1 | |] eqn:Hc; try discriminate.
    destruct (exec_shape_default c w w1 (wf_default _ Hwf) Hc) as [Hs Hd].
    rewrite (IH w1 Hn (step_wf _ _ Hwf Hs) H). by apply Hd.
Qed.

(** ** The default logger *)

Lemma after_Init_facts verbose logFd il wl el syslogErr w w1 dl :
  let w2 := after_Init verbose logFd il wl el syslogErr w w1 dl in
  heap w !! length (heap w) = None /\
  heap w2 !! length (heap w) = Some (built verbose logFd il wl el) /\
  defaultLogger w2
    = (if initialized dl then defaultLogger w else length (heap w)).
Proof.
  simpl. split; [by apply lookup_ge_None_2 |].
  split; [by rewrite list_lookup_middle | done].
Qed.

(** C1: the default logger is replaced at most once.  Take any script [pre]
    of API calls without an [Init], run from the state the package's [init]
    leaves.  The [Init] that follows returns the address [a] of the struct it
    has just built (an address no logger had before) and makes it the
    default.  After any further script [post] the default is still [a], and
    any later [Init] again returns the address [b] of a newly built,
    initialized struct, different from [a] and from every logger allocated
    before, and leaves the default at [a]. *)
Theorem Init_replaces_default_at_most_once
    (pre : list Call) (name : string) (verbose systemLog : bool)
    (logFd : Writer) (w1 : World) :
  forallb (fun c => negb (is_Init c)) pre = true ->
  exec_all pre boot = Ret tt w1 ->
  exists w2 il wl el,
    let a := length (heap w1) in
    Init name verbose systemLog logFd w1 = Ret a w2 /\
    heap w1 !! a = None /\
    heap w2 !! a = Some (built verbose logFd il wl el) /\
    defaultLogger w2 = a /\
    forall post w3, exec_all post w2 = Ret tt w3 ->
      defaultLogger w3 = a /\
      forall name' verbose' systemLog' logFd',
      exists w4 il' wl' el',
        let b := length (heap w3) in
        Init name' verbose' systemLog' logFd' w3 = Ret b w4 /\
        b <> a /\
        heap w3 !! b = None /\
        heap w4 !! b = Some (built verbose' logFd' il' wl' el') /\
        defaultLogger w4 = a.
Proof.
  intros Hpre Hrun.
  pose proof (exec_all_wf _ _ _ boot_wf Hrun) as Hwf1.
  pose proof (exec_all_no_Init _ _ _ Hpre boot_wf Hrun) as Hd1.
  destruct boot_pristine as (Hb0 & Hbd & _ & _).
  destruct (exec_all_heap _ _ _ _ _ boot_wf Hrun Hb0) as (dl & Hdl & (Hi & _)).
  simpl in Hi. rewrite Hbd in Hd1. rewrite <- Hd1 in Hdl.
  destruct (Init_total name verbose systemLog logFd w1 dl Hdl)
    as (il & wl & el & err & n & _ & _ & HI).
  destruct (after_Init_facts verbose logFd il wl el err w1 (connected w1 n) dl)
    as (Hfresh & Hnew & Hdef).
  rewrite <- Hi in Hdef.
  eexists _, il, wl, el. cbv zeta.
  split; [exact HI |]. do 3 (split; [done |]).
  set (w2 := after_Init _ _ _ _ _ _ _ _ _) in *.
  assert (Hwf2 : wf w2).
  { eapply step_wf; [exact Hwf1 |]. by eapply step_Init. }
  intros post w3 Hpost.
  rewrite <- Hdef in Hnew.
  pose proof (exec_all_default _ _ _ _ Hwf2 Hpost Hnew eq_refl) as Hd3.
  destruct (exec_all_heap _ _ _ _ _ Hwf2 Hpost Hnew) as (dl3 & Hdl3 & (Hi3 & _)).
  simpl in Hi3. rewrite <- Hd3 in Hdl3.
  split; [congruence |].
  intros name' verbose' systemLog' logFd'.
  destruct (Init_total name' verbose' systemLog' logFd' w3 dl3 Hdl3)
    as (il' & wl' & el' & err' & n' & _ & _ & HI').
  destruct (after_Init_facts verbose' logFd' il' wl' el' err' w3
              (connected w3 n') dl3) as (Hfresh' & Hnew' & Hdef').
  rewrite <- Hi3 in Hdef'.
  eexists _, il', wl', el'. cbv zeta.
  split; [exact HI' |]. split; [| split; [done | split; [done | congruence]]].
  apply lookup_lt_Some in Hdl3. rewrite Hd3, Hdef in Hdl3. lia.
Qed.

Lemma exec_verbose_ok v sh lg w :
  heap w !! logger v = Some lg ->
  exec_verbose v sh w =
    Ret tt (if enabled v
            then logged w (record_events (trace w) (infoLog lg) 0
                             (vshape_text sh))
            else w).
Proof.
  intros Hl.
  destruct sh; simpl; unfold Verbose_Info, Verbose_Infoln, Verbose_Infof;
    destruct (enabled v); try done;
    by rewrite (output_ok _ lg) by (done || by left).
Qed.

(** C2: [l.Verbosity(T)] returns a handle bound to [l] whose enabled flag
    is true exactly when the Level of [l] is at least [T] at that moment.
    The handle is a value: after [l.SetLevel(lvl)], for any [lvl], its Info
    methods still log exactly when the Level at creation was at least [T],
    whereas a handle created afresh follows the new Level. *)
Theorem Verbosity_enabled_iff_level_at_creation
    (w : World) (l : nat) (lg : Logger) (T : Z) :
  heap w !! l = Some lg ->
  exists v,
    Logger_Verbosity l T w = Ret v w /\
    logger v = l /\
    (enabled v = true <-> (level lg >= T)%Z) /\
    forall lvl, exists w' lg',
      Logger_SetLevel l lvl w = Ret tt w' /\
      heap w' !! l = Some lg' /\ level lg' = lvl /\
      (exists v', Logger_Verbosity l T w' = Ret v' w' /\
                  (enabled v' = true <-> (lvl >= T)%Z)) /\
      forall sh, exists evs,
        exec_verbose v sh w' = Ret tt (logged w' evs) /\
        (evs <> [] -> (level lg >= T)%Z) /\
        ((level lg >= T)%Z ->
         evs = record_events (trace w') (infoLog lg') 0 (vshape_text sh)).
Proof.
  intros Hl. exists (mkVerbose (level lg >=? T)%Z l).
  split; [by apply Logger_Verbosity_ok |]. split; [done |].
  split; [simpl; rewrite Z.geb_le; lia |].
  intros lvl. eexists _, (with_level lvl lg).
  split; [by apply Logger_SetLevel_ok |].
  assert (Hl' : forall evs,
             heap (logged (stored w l (with_level lvl lg)) evs) !! l
             = Some (with_level lvl lg)).
  { intros evs. by eapply stored_lookup. }
  split; [apply Hl' |]. split; [done |]. split.
  - eexists. split; [apply Logger_Verbosity_ok, Hl' |].
    simpl. rewrite Z.geb_le. lia.
  - intros sh. rewrite (exec_verbose_ok _ _ (with_level lvl lg)) by apply Hl'.
    simpl. destruct (level lg >=? T)%Z eqn:Hge.
    + eexists. split; [done |]. apply Z.geb_le in Hge. split; [lia | done].
    + exists []. rewrite logged_nil. split; [done |].
      assert (~ (level lg >= T)%Z).
      { intros Hc. apply Z.ge_le, Z.geb_le in Hc. congruence. }
      split; [done | tauto].
Qed.

(** C9: on a handle whose enabled flag is false, [Info], [Infoln] and
    [Infof] return with the world as it was: nothing is written and no
    struct changes.  On a handle whose flag is true and whose logger is [lg],
    each of them writes one record on the info channel of [lg] (the
    formatted text, in one [Write] on the channel's [io.MultiWriter]) and
    changes nothing else. *)
Theorem Verbose_Info_methods_gated
    (v : Verbose) (args : list Value) (format : string) (w : World) :
  (enabled v = false ->
     Verbose_Info v args w = Ret tt w /\
     Verbose_Infoln v args w = Ret tt w /\
     Verbose_Infof v format args w = Ret tt w) /\
  (enabled v = true ->
     forall lg, heap w !! logger v = Some lg ->
       let one_record txt :=
         mkWorld (heap w) (defaultLogger w) (conns w)
                 (trace w ++
                  write_events (trace w) (log_out (infoLog lg))
                    (formatRecord (infoLog lg) (int_add 3 0) txt)) in
       Verbose_Info v args w = Ret tt (one_record (Sprint args)) /\
       Verbose_Infoln v args w = Ret tt (one_record (Sprintln args)) /\
       Verbose_Infof v format args w = Ret tt (one_record (Sprintf format args))).
Proof.
  split; intros He.
  - unfold Verbose_Info, Verbose_Infoln, Verbose_Infof. by rewrite He.
  - intros lg Hl. cbv zeta.
    unfold Verbose_Info, Verbose_Infoln, Verbose_Infof. rewrite He.
    by rewrite !(output_ok _ lg) by (done || by left).
Qed.

(** ** Close and the fatal logs *)

Lemma close_events_nil_iff h cs : close_events h cs = [] <-> cs = [].
Proof. destruct cs; simpl; split; intros; done. Qed.

Lemma close_events_app h pre post :
  close_events h (pre ++ post)
  = close_events h pre ++ close_events (h ++ close_events h pre) post.
Proof.
  revert h. induction pre as [| c pre IH]; intros h; simpl.
  - by rewrite app_nil_r.
  - rewrite IH, <- !app_assoc. done.
Qed.

Lemma close_events_reports h cs : reports_failures h cs (close_events h cs).
Proof.
  intros pre c post ->. rewrite close_events_app.
  exists (close_events h pre).
  set (h1 := h ++ close_events h pre).
  exists (match closer_Close h1 c with
          | Some err => [close_diagnostic c err]
          | None => []
          end
          ++ close_events
               (h1 ++ EClose c ::
                      match closer_Close h1 c with
                      | Some err => [close_diagnostic c err]
                      | None => []
                      end) post).
  split; [done |]. split; [apply closes_of_close_events |]. split.
  - unfold closes_of. rewrite omap_app.
    rewrite (closes_of_close_events _ post : omap _ _ = post).
    by destruct (closer_Close h1 c).
  - destruct (closer_Close h1 c) as [err |]; simpl; [by eexists |].
    by destruct post.
Qed.

(** C3 (as the code has it): [Close] on a logger whose initialized flag is
    false returns with the world as it was.  [Close] never clears the flag:
    both a first and a second [Close] on an initialized logger leave every
    struct as it was and run the same loop over the logger's closers.  Each
    run calls [Close] on each closer, in order, and writes the diagnostic
    "[ERROR]: Failed to close log ..." to standard error right after the
    [Close] of each closer that reported an error, and nothing for a closer
    that reported none; it does nothing else.  So the second [Close] is a
    no-op only for a logger without closers, and it writes whenever a closer
    reports an error on being closed again.  [Close] has no result, so no
    error reaches the caller either way. *)
Theorem Close_uninitialized_noop_initialized_recloses
    (w : World) (l : nat) (lg : Logger) :
  heap w !! l = Some lg ->
  (initialized lg = false -> Logger_Close l w = Ret tt w) /\
  (initialized lg = true ->
     exists evs1 evs2,
       Logger_Close l w = Ret tt (logged w evs1) /\
       Logger_Close l (logged w evs1) = Ret tt (logged (logged w evs1) evs2) /\
       heap (logged (logged w evs1) evs2) = heap w /\
       evs1 = close_events (trace w) (closers lg) /\
       evs2 = close_events (trace w ++ evs1) (closers lg) /\
       closes_of evs1 = closers lg /\
       closes_of evs2 = closers lg /\
       Forall (fun wp => wp.1 = Stderr) (writes_of evs1) /\
       Forall (fun wp => wp.1 = Stderr) (writes_of evs2) /\
       (evs2 = [] <-> closers lg = []) /\
       reports_failures (trace w) (closers lg) evs1 /\
       reports_failures (trace w ++ evs1) (closers lg) evs2).
Proof.
  intros Hl. split; intros Hi.
  - by rewrite (Logger_Close_ok _ lg), Hi.
  - exists (close_events (trace w) (closers lg)).
    set (w1 := logged w _).
    exists (close_events (trace w1) (closers lg)).
    split; [by rewrite (Logger_Close_ok _ lg), Hi |].
    split; [by rewrite (Logger_Close_ok _ lg), Hi |].
    do 3 (split; [done |]).
    split; [apply closes_of_close_events |].
    split; [apply closes_of_close_events |].
    split; [apply writes_of_close_events |].
    split; [apply writes_of_close_events |].
    split; [apply close_events_nil_iff |].
    split; apply close_events_reports.
Qed.

Lemma fatal_ok l lg depth txt w :
  heap w !! l = Some lg ->
  (run output l sFatal depth txt then run Logger_Close l then os_Exit 1) w
  = Exited (A := unit) 1
      (let w1 := logged w (record_events (trace w) (fatalLog lg) depth txt) in
       if initialized lg
       then logged w1 (close_events (trace w1) (closers lg))
       else w1).
Proof.
  intros Hl. unfold bind at 1.
  rewrite (output_ok _ lg) by (done || (right; right; right; done)).
  unfold bind. rewrite (Logger_Close_ok _ lg) by done.
  by destruct (initialized lg).
Qed.

Lemma fatal_default_ok lg depth txt w :
  heap w !! defaultLogger w = Some lg ->
  (run (let* d := get_default in output d sFatal depth txt) then
   run (let* d := get_default in Logger_Close d) then os_Exit 1) w
  = Exited (A := unit) 1
      (let w1 := logged w (record_events (trace w) (fatalLog lg) depth txt) in
       if initialized lg
       then logged w1 (close_events (trace w1) (closers lg))
       else w1).
Proof.
  intros Hl. rewrite <- (fatal_ok _ lg) by done.
  unfold bind, get_default.
  by rewrite (output_ok _ lg) by (done || (right; right; right; done)).
Qed.

(** C6: every Fatal variant -- [Fatal], [FatalDepth], [Fatalln] and
    [Fatalf], as methods and as package-level functions on the default
    logger -- ends the process with exit status 1, whatever [Close] on the
    closers reports.  Before that it has first written the fatal record on
    the fatal channel and then called [Close] on each closer of the logger,
    in order; the only other effect is a diagnostic on standard error for a
    closer that failed. *)
Theorem Fatal_writes_closes_exits
    (w : World) (t : Target) (sh : Shape) (lg : Logger) :
  reachable w ->
  heap w !! target_addr t w = Some lg ->
  exists cl,
    exec_log t SevFatal sh w
    = Exited 1
        (logged w (record_events (trace w) (fatalLog lg)
                     (shape_depth sh) (shape_text sh)
                   ++ cl)) /\
    closes_of cl = closers lg /\
    Forall (fun wp => wp.1 = Stderr) (writes_of cl).
Proof.
  intros Hr Hl.
  set (w1 := logged w (record_events (trace w) (fatalLog lg) (shape_depth sh)
                         (shape_text sh))).
  exists (close_events (trace w1) (closers lg)).
  split; [| split; [apply closes_of_close_events | apply writes_of_close_events]].
  assert (Hcl : initialized lg = false -> closers lg = []).
  { intros Hi. destruct (wf_shape _ (reachable_wf _ Hr) _ _ Hl)
      as [(_ & Hc & _) | (Hi' & _)]; congruence. }
  rewrite <- logged_logged. fold w1.
  transitivity
    (Exited (A := unit) 1
       (if initialized lg
        then logged w1 (close_events (trace w1) (closers lg))
        else w1)).
  { destruct t, sh; simpl in Hl;
      first [apply (fatal_default_ok lg), Hl | apply (fatal_ok _ lg), Hl]. }
  destruct (initialized lg); [done |].
  rewrite Hcl by done. simpl. by rewrite logged_nil.
Qed.

(** ** What [Init] wires *)

(** C4 (as the code has it): the Level of a logger is zero when [Init]
    returns it, and so is that of the logger [init_logger] installs.  A
    handle obtained from a logger just built, for a requested level [T], is
    enabled exactly when [T <= 0]: for every [T > 0] its Info methods write
    nothing, and for [T <= 0] each call writes one info record. *)
Theorem fresh_Logger_level_zero_gate
    (name : string) (verbose systemLog : bool) (logFd : Writer)
    (w : World) (dl : Logger) (T : Z) :
  heap w !! defaultLogger w = Some dl ->
  (exists dl0, heap boot !! defaultLogger boot = Some dl0 /\ level dl0 = 0%Z) /\
  exists w1 lg v,
    let l := length (heap w) in
    Init name verbose systemLog logFd w = Ret l w1 /\
    heap w1 !! l = Some lg /\ level lg = 0%Z /\
    Logger_Verbosity l T w1 = Ret v w1 /\
    (enabled v = true <-> (T <= 0)%Z) /\
    forall sh,
      exec_verbose v sh w1
      = Ret tt (if (0 <? T)%Z then w1
                else logged w1 (record_events (trace w1) (infoLog lg) 0
                                  (vshape_text sh))).
Proof.
  intros Hd. split.
  { destruct boot_pristine as (H0 & Hbd & _). rewrite Hbd, H0. by eexists. }
  destruct (Init_total name verbose systemLog logFd w dl Hd)
    as (il & wl & el & err & n & _ & _ & HI).
  destruct (after_Init_facts verbose logFd il wl el err w (connected w n) dl)
    as (_ & Hnew & _).
  eexists _, _, (mkVerbose (0 >=? T)%Z (length (heap w))). cbv zeta.
  split; [exact HI |]. split; [exact Hnew |]. split; [done |].
  split; [by rewrite (Logger_Verbosity_ok _ _ _ _ Hnew) |].
  split; [simpl; rewrite Z.geb_le; lia |].
  intros sh.
  rewrite (exec_verbose_ok (mkVerbose (0 >=? T)%Z (length (heap w))) _ _ _ Hnew).
  simpl.
  destruct (Z.ltb_spec 0 T), (Z.geb_spec 0 T); try lia; done.
Qed.


(** ** The format of a record *)

Lemma string_app_assoc (a b c : string) : (a +:+ b) +:+ c = a +:+ (b +:+ c).
Proof.
  induction a as [| x a IH]; [done |].
  change (String x ((a +:+ b) +:+ c) = String x (a +:+ (b +:+ c))).
  by rewrite IH.
Qed.

(** Before the first [Init] the default logger is the one [init_logger]
    installed, not initialized. *)
Lemma default_uninitialized_before_Init pre w :
  forallb (fun c => negb (is_Init c)) pre = true ->
  exec_all pre boot = Ret tt w ->
  exists dl, heap w !! defaultLogger w = Some dl /\ initialized dl = false.
Proof.
  intros Hpre Hrun.
  pose proof (exec_all_no_Init _ _ _ Hpre boot_wf Hrun) as Hd.
  destruct boot_pristine as (Hb0 & Hbd & _ & _).
  destruct (exec_all_heap _ _ _ _ _ boot_wf Hrun Hb0) as (dl & Hdl & (Hi & _)).
  exists dl. rewrite Hd, Hbd. split; [done |]. by rewrite <- Hi.
Qed.

(** C7 (as the code has it): a record is the channel's prefix, the header
    the flags ask for, and the message.  The prefix is the severity label of
    the channel for a logger built by [Init]; for the logger [init_logger]
    installs -- the default one until the first [Init] -- it is the line
    [[ERROR]: Logging before logger initiated!], a newline, and then the
    severity label, and all of its channels write to standard error only.
    With the flags [Init] and [init_logger] set, and with any flags without
    [log.Lmsgprefix], the record begins with that prefix; with
    [log.Lmsgprefix], which [SetFlags] can set, the prefix comes after the
    header, right before the message. *)
Theorem record_prefix_is_marker_and_label
    (w : World) (l : nat) (lg : Logger) (s depth : Z) (txt : string) :
  reachable w ->
  heap w !! l = Some lg ->
  is_severity s ->
  let c := channel lg s in
  let marker := if initialized lg then "" else initText in
  let rec := formatRecord c (int_add 3 depth) txt in
  output l s depth txt w
    = Ret tt (logged w (write_events (trace w) (log_out c) rec)) /\
  label s ∈ [labelInfo; labelWarn; labelErr; labelFatal] /\
  initText = labelErr +:+ "Logging before logger initiated!" +:+ nl /\
  Z.land flags Lmsgprefix = 0%Z /\
  (Z.land (log_flag c) Lmsgprefix = 0%Z ->
     exists rest, rec = marker +:+ label s +:+ rest) /\
  (Z.land (log_flag c) Lmsgprefix <> 0%Z ->
     exists rest, rec = header (log_flag c) (int_add 3 depth)
                        +:+ marker +:+ label s +:+ rest) /\
  (initialized lg = false ->
     log_out c = [Stderr] /\
     write_events (trace w) (log_out c) rec = [EWrite Stderr rec]) /\
  (forall pre w0, forallb (fun c => negb (is_Init c)) pre = true ->
     exec_all pre boot = Ret tt w0 ->
     exists dl, heap w0 !! defaultLogger w0 = Some dl /\ initialized dl = false).
Proof.
  intros Hr Hl Hs. cbv zeta.
  split; [by apply output_ok |].
  split.
  { destruct Hs as [-> | [-> | [-> | ->]]]; rewrite !elem_of_cons; tauto. }
  split; [done |]. split; [done |].
  assert (Hp : log_prefix (channel lg s)
               = (if initialized lg then "" else initText) +:+ label s /\
               (initialized lg = false -> log_out (channel lg s) = [Stderr])).
  { destruct (wf_shape _ (reachable_wf _ Hr) _ _ Hl)
      as [(Hi & _ & Hch) | (Hi & Hch)]; rewrite Hi.
    - destruct (Hch s Hs) as [Ho Hpre]. by split.
    - split; [by apply Hch | done]. }
  destruct Hp as [Hp Ho].
  split; [| split; [| split]].
  - intros Hf. unfold formatRecord. rewrite Hf. simpl. rewrite Hp.
    eexists. by rewrite string_app_assoc.
  - intros Hf. unfold formatRecord.
    apply Z.eqb_neq in Hf. rewrite Hf. rewrite Hp.
    eexists. change ("" +:+ ?x) with x. by rewrite string_app_assoc.
  - intros Hi. split; [by apply Ho |].
    rewrite (Ho Hi). apply write_events_single.
  - apply default_uninitialized_before_Init.
Qed.

(** ** The system-log adapter *)

Lemma setup_frame src w r w1 :
  setup src w = Ret r w1 -> exists n, w1 = connected w n.
Proof.
  intros H.
  destruct (setup_cases src w) as [(err & n & H') | (il & wl & el & H' & _)];
    rewrite H' in H; injection H as <- <-; by eexists.
Qed.

(** C8: when the system-log adapter fails under [Init], [Init] still
    returns, with the address of a new initialized logger wired to the
    primary destination (and to standard error and standard output as
    usual) and to no system-log writer; it hands no error to its caller; and
    what it has done to the outside world by then is one record on that
    logger's error channel -- the adapter's error, under the label
    [[ERROR]: ], in one [Write] on the channel's [io.MultiWriter], which
    reaches the primary destination and, when that one accepts it, standard
    error. *)
Theorem Init_survives_syslog_failure
    (name : string) (verbose : bool) (logFd : Writer)
    (w w0 : World) (dl : Logger) (err : error) :
  heap w !! defaultLogger w = Some dl ->
  setup name w = Ret (None, None, None, Some err) w0 ->
  exists w1,
    let l := length (heap w) in
    let lg := built verbose logFd None None None in
    let rec := labelErr +:+ header flags (int_add 3 0)
               +:+ Sprint [VError err]
               +:+ (if ends_with_newline (Sprint [VError err]) then "" else nl) in
    Init name verbose true logFd w = Ret l w1 /\
    heap w1 !! l = Some lg /\
    initialized lg = true /\
    log_out (errorLog lg) = [logFd; Stderr] /\
    trace w1 = trace w ++ write_events (trace w) [logFd; Stderr] rec /\
    (accepted (trace w) [logFd] rec ->
     trace w1 = trace w ++ [EWrite logFd rec; EWrite Stderr rec]).
Proof.
  intros Hd Hs. destruct (setup_frame _ _ _ _ Hs) as [n ->].
  eexists. cbv zeta.
  split; [by apply (Init_ok name verbose true logFd w dl None None None (Some err) n) |].
  split; [apply after_Init_facts |]. split; [done |]. split; [done |].
  split; [reflexivity |].
  intros [Hacc _].
  match type of Hacc with
  | writer_Write _ _ ?r = None =>
      change (trace w ++ write_events (trace w) [logFd; Stderr] r
              = trace w ++ [EWrite logFd r; EWrite Stderr r])
  end.
  simpl. rewrite Hacc. by destruct (writer_Write _ Stderr _).
Qed.

(** C10: [setup] is all or nothing: it returns three writers, all of them
    system-log writers, and no error, or no writer at all and an error.  So
    the logger [Init] builds with [systemLog = true] got from the adapter a
    writer for each of its info, warning and error channels, or for none;
    and whether a channel has a system-log destination at all is the same
    for the three channels. *)
Theorem setup_all_or_nothing
    (name : string) (verbose : bool) (logFd : Writer) (w : World) (dl : Logger) :
  heap w !! defaultLogger w = Some dl ->
  (exists w0,
     (exists il wl el,
        setup name w = Ret (Some il, Some wl, Some el, None) w0 /\
        is_syslog il = true /\ is_syslog wl = true /\ is_syslog el = true) \/
     (exists err, setup name w = Ret (None, None, None, Some err) w0)) /\
  exists w1 lg il wl el,
    Init name verbose true logFd w = Ret (length (heap w)) w1 /\
    heap w1 !! length (heap w) = Some lg /\
    lg = built verbose logFd il wl el /\
    ((exists a b c, il = Some a /\ wl = Some b /\ el = Some c /\
        a ∈ log_out (infoLog lg) /\ b ∈ log_out (warnLog lg) /\
        c ∈ log_out (errorLog lg) /\
        is_syslog a = true /\ is_syslog b = true /\ is_syslog c = true) \/
     (il = None /\ wl = None /\ el = None /\
      forall x, x ∈ log_out (infoLog lg) ++ log_out (warnLog lg)
                    ++ log_out (errorLog lg) ->
                x = logFd \/ x = Stdout \/ x = Stderr)) /\
    existsb is_syslog (log_out (infoLog lg))
      = existsb is_syslog (log_out (warnLog lg)) /\
    existsb is_syslog (log_out (warnLog lg))
      = existsb is_syslog (log_out (errorLog lg)).
Proof.
  intros Hd. split.
  { destruct (setup_cases name w) as [(err & n & H) | (il & wl & el & H & Hs)];
      eexists; [right | left]; eauto. }
  destruct (Init_total name verbose true logFd w dl Hd)
    as (il & wl & el & err & n & Hout & _ & HI).
  eexists _, _, il, wl, el. split; [exact HI |].
  split; [apply after_Init_facts |]. split; [done |].
  destruct Hout as [(? & _) | [(_ & -> & -> & -> & _)
                   | (_ & _ & a & b & c & -> & -> & -> & Ha & Hb & Hc)]];
    [done | |].
  - split; [right; do 3 (split; [done |]) | by destruct verbose].
    intros x Hx. destruct verbose; simpl in Hx;
      repeat (apply elem_of_cons in Hx as [-> | Hx]; [tauto |]);
      by apply elem_of_nil in Hx.
  - split; [left; exists a, b, c; do 3 (split; [done |]) |].
    + destruct verbose; simpl; rewrite !elem_of_cons; tauto.
    + destruct verbose; simpl; rewrite ?Ha, ?Hb, ?Hc;
        by rewrite ?orb_true_r.
Qed.


End Properties.

(** * The properties on concrete runs *)

(** The two tests of [gologger_test.go], run on the model.  Before [Init]
    the four records go to standard error; after two [Init]s the first
    buffer gets the records of the first logger and of the default logger,
    the second buffer those of the second logger. *)
Example TestLoggingBeforeInit :
  exists w p1 p2 p3 p4,
    exec_all (RT := demo true)
      [CLog Default SevInfo (Print [VString "info log"]);
       CLog Default SevWarning (Print [VString "warning log"]);
       CLog Default SevError (Print [VString "error log"])] boot = Ret tt w /\
    output (RT := demo true) (defaultLogger w) sFatal 0 "fatal log" w
      = Ret tt (logged w [EWrite Stderr p4]) /\
    trace w = [EWrite Stderr p1; EWrite Stderr p2; EWrite Stderr p3] /\
    p1 = initText +:+ "[INFO]: 2009/11/10 23:00:00.000000 main.go:23: info log" +:+ nl /\
    p2 = initText +:+ "[WARN]: 2009/11/10 23:00:00.000000 main.go:23: warning log" +:+ nl /\
    p3 = initText +:+ "[ERROR]: 2009/11/10 23:00:00.000000 main.go:23: error log" +:+ nl /\
    p4 = initText +:+ "[FATAL]: 2009/11/10 23:00:00.000000 main.go:23: fatal log" +:+ nl.
Proof. eexists _, _, _, _, _. repeat split; vm_compute; reflexivity. Qed.

Example TestInit :
  let buf1 := CallerW 1 false in
  let buf2 := CallerW 2 false in
  exists w,
    exec_all (RT := demo true)
      [CInit "test1" false false buf1;
       CInit "test2" false false buf2;
       CLog (At 1) SevInfo (Print [VString "logger #1"]);
       CLog (At 2) SevInfo (Print [VString "logger #2"]);
       CLog Default SevInfo (Print [VString "default logger"])] boot = Ret tt w /\
    defaultLogger w = 1 /\
    length (filter (fun wp => wp.1 = buf1) (writes_of (trace w))) = 2 /\
    length (filter (fun wp => wp.1 = buf2) (writes_of (trace w))) = 1.
Proof. eexists. repeat split; vm_compute; reflexivity. Qed.

Lemma Init_replaces_default_at_most_once_witness :
  exists w1 w2,
    exec_all (RT := demo true)
      [CLog Default SevInfo (Print [VString "early"])] boot = Ret tt w1 /\
    Init (RT := demo true) "app" false true file1 w1 = Ret 1 w2 /\
    defaultLogger w2 = 1 /\
    forall post w3,
      exec_all (RT := demo true) post w2 = Ret tt w3 -> defaultLogger w3 = 1.
Proof.
  eexists.
  assert (Hrun : exec_all (RT := demo true)
                   [CLog Default SevInfo (Print [VString "early"])] boot
                 = Ret tt
                     (logged boot
                        [EWrite Stderr
                           (initText +:+ labelInfo
                            +:+ "2009/11/10 23:00:00.000000 main.go:23: early"
                            +:+ nl)])).
  { vm_compute. reflexivity. }
  destruct (Init_replaces_default_at_most_once (RT := demo true)
              [CLog Default SevInfo (Print [VString "early"])]
              "app" false true file1 _ eq_refl Hrun)
    as (w2 & il & wl & el & HI & _ & _ & Hd & Hpost).
  exists w2. split; [exact Hrun |]. split; [exact HI |]. split; [exact Hd |].
  intros post w3 H3. apply (Hpost post w3 H3).
Defined.

Lemma Verbosity_enabled_iff_level_at_creation_witness :
  exists v,
    Logger_Verbosity 0 1 boot = Ret v boot /\ enabled v = false /\
    exists w',
      Logger_SetLevel (RT := demo true) 0 5 boot = Ret tt w' /\
      Verbose_Info (RT := demo true) v [VString "quiet"] w' = Ret tt w'.
Proof.
  destruct boot_pristine as (Hb & _).
  destruct (Verbosity_enabled_iff_level_at_creation (RT := demo true)
              boot 0 _ 1 Hb) as (v & Hv & _ & Hen & Hset).
  exists v. split; [exact Hv |].
  assert (Hoff : enabled v = false).
  { destruct (enabled v); [| reflexivity].
    destruct Hen as [Hen _]. specialize (Hen eq_refl). simpl in Hen. lia. }
  split; [exact Hoff |].
  destruct (Hset 5%Z) as (w' & lg' & Hs & _ & _ & _ & _).
  exists w'. split; [exact Hs |].
  unfold Verbose_Info. rewrite Hoff. reflexivity.
Defined.

Lemma Verbose_Info_methods_gated_witness :
  Verbose_Info (RT := demo true) (mkVerbose false 0) [VString "quiet"] boot
    = Ret tt boot /\
  Verbose_Info (RT := demo true) (mkVerbose true 0) [VString "loud"] boot
    = Ret tt (logged boot
                [EWrite Stderr
                   (initText +:+ labelInfo
                    +:+ "2009/11/10 23:00:00.000000 main.go:23: loud" +:+ nl)]).
Proof.
  split.
  - apply (Verbose_Info_methods_gated (RT := demo true)
             (mkVerbose false 0) [VString "quiet"] "" boot).
    reflexivity.
  - destruct boot_pristine as (Hb & _).
    apply (proj2 (Verbose_Info_methods_gated (RT := demo true)
                    (mkVerbose true 0) [VString "loud"] "" boot)
                 eq_refl _ Hb).
Defined.

(** C3, as stated, fails: after a first [Close] the logger is still
    initialized, so a second [Close] closes the file again, the file reports
    that it is closed already, and a diagnostic is written to standard
    error. *)
Lemma second_Close_closes_and_writes_again :
  exists w0 w1 w2,
    Init (RT := demo true) "app" false false file1 boot = Ret 1 w0 /\
    Logger_Close (RT := demo true) 1 w0 = Ret tt w1 /\
    Logger_Close (RT := demo true) 1 w1 = Ret tt w2 /\
    trace w1 = [EClose file1] /\
    trace w2 = trace w1 ++
      [EClose file1;
       EWrite Stderr
         ("[ERROR]: Failed to close log &{file}: file already closed" +:+ nl)].
Proof. eexists _, _, _. repeat split; vm_compute; reflexivity. Qed.

Lemma Close_uninitialized_noop_initialized_recloses_witness :
  Logger_Close (RT := demo true) 0 boot = Ret tt boot /\
  let w0 := mkWorld (heap boot ++ [built false file1 None None None]) 1 0 [] in
  Init (RT := demo true) "app" false false file1 boot = Ret 1 w0 /\
  Logger_Close (RT := demo true) 1 w0 = Ret tt (logged w0 [EClose file1]) /\
  Logger_Close (RT := demo true) 1 (logged w0 [EClose file1])
  = Ret tt
      (logged (logged w0 [EClose file1])
         [EClose file1;
          EWrite Stderr
            ("[ERROR]: Failed to close log &{file}: file already closed"
             +:+ nl)]).
Proof.
  split.
  - destruct boot_pristine as (Hb & _).
    apply (Close_uninitialized_noop_initialized_recloses (RT := demo true)
             boot 0 _ Hb).
    reflexivity.
  - intros w0. split; [vm_compute; reflexivity |].
    destruct (Close_uninitialized_noop_initialized_recloses (RT := demo true)
                w0 1 (built false file1 None None None) eq_refl)
      as [_ H].
    destruct (H eq_refl) as (evs1 & evs2 & H1 & H2 & _ & E1 & E2 & _).
    rewrite E2 in H2. rewrite E1 in H1, H2.
    split; [exact H1 | exact H2].
Defined.

(** C4, as stated, fails: a handle for level 0 obtained from a logger just
    built is enabled, and its [Info] writes a record. *)
Lemma Verbosity_zero_on_fresh_Logger_logs :
  exists w0 v w1,
    Init (RT := demo true) "app" false false buffer1 boot = Ret 1 w0 /\
    Logger_Verbosity 1 0 w0 = Ret v w0 /\
    enabled v = true /\
    Verbose_Info (RT := demo true) v [VString "hello"] w0 = Ret tt w1 /\
    trace w0 = [] /\
    trace w1 =
      [EWrite buffer1
         ("[INFO]: 2009/11/10 23:00:00.000000 main.go:23: hello" +:+ nl)].
Proof. eexists _, _, _. repeat split; vm_compute; reflexivity. Qed.

Lemma fresh_Logger_level_zero_gate_witness :
  exists w1 v,
    Init (RT := demo true) "app" false false buffer1 boot = Ret 1 w1 /\
    Logger_Verbosity 1 2 w1 = Ret v w1 /\
    Verbose_Info (RT := demo true) v [VString "hello"] w1 = Ret tt w1.
Proof.
  destruct boot_pristine as (Hb & _).
  destruct (fresh_Logger_level_zero_gate (RT := demo true)
              "app" false false buffer1 boot _ 2 Hb)
    as (_ & w1 & lg & v & HI & _ & _ & Hv & _ & Hsh).
  exists w1, v. split; [exact HI |]. split; [exact Hv |].
  exact (Hsh (VPrint [VString "hello"])).
Defined.



Lemma Fatal_writes_closes_exits_witness :
  exists w0 w1,
    Init (RT := demo true) "app" false false file1 boot = Ret 1 w0 /\
    Logger_Fatalf (RT := demo true) 1 "cannot open %v" [VString "db"] w0
      = Exited 1 w1 /\
    closes_of (trace w1) = [file1].
Proof.
  assert (HI : Init (RT := demo true) "app" false false file1 boot
               = Ret 1 (mkWorld (heap boot ++
                                 [built false file1 None None None])
                                1 0 [])).
  { vm_compute. reflexivity. }
  set (w0 := mkWorld _ _ _ _) in HI.
  assert (Hr : reachable (RT := demo true) w0).
  { apply (reachable_step (RT := demo true)
             (CInit "app" false false file1) boot w0 reachable_boot).
    vm_compute. reflexivity. }
  destruct (Fatal_writes_closes_exits (RT := demo true) w0 (At 1)
              (Printf "cannot open %v" [VString "db"])
              (built false file1 None None None) Hr eq_refl)
    as (cl & Hf & Hcl & _).
  exists w0. eexists. split; [exact HI |]. split; [exact Hf |].
  unfold closes_of in *. simpl. exact Hcl.
Defined.

(** C7, as stated, fails: once [SetFlags] has set [log.Lmsgprefix] (here
    together with [log.Ldate]), a record begins with the date and none of
    the four severity labels starts it. *)
Lemma SetFlags_Lmsgprefix_moves_label :
  exists w1 p,
    exec_all (RT := demo true)
      [CInit "app" false false buffer1;
       CSetFlags (Z.lor Ldate Lmsgprefix);
       CLog Default SevInfo (Print [VString "hello"])] boot = Ret tt w1 /\
    trace w1 = [EWrite buffer1 p] /\
    p = "2009/11/10 [INFO]: hello" +:+ nl /\
    forall lbl rest,
      lbl ∈ [labelInfo; labelWarn; labelErr; labelFatal] -> p <> lbl +:+ rest.
Proof.
  eexists _, _. split; [vm_compute; reflexivity |].
  split; [reflexivity |]. split; [vm_compute; reflexivity |].
  intros lbl rest Hl Hp.
  repeat (apply elem_of_cons in Hl as [-> | Hl];
          [vm_compute in Hp; discriminate Hp |]).
  by apply elem_of_nil in Hl.
Qed.

Lemma record_prefix_is_marker_and_label_witness :
  output (RT := demo true) 0 sWarn 0 "disk almost full" boot
  = Ret tt (logged boot
              [EWrite Stderr
                 (initText +:+ labelWarn
                  +:+ "2009/11/10 23:00:00.000000 main.go:23: disk almost full"
                  +:+ nl)]).
Proof.
  destruct boot_pristine as (Hb & _).
  destruct (record_prefix_is_marker_and_label (RT := demo true)
              boot 0 _ sWarn 0 "disk almost full"
              reachable_boot Hb (or_intror (or_introl eq_refl)))
    as (Ho & _).
  exact Ho.
Defined.

Lemma Init_survives_syslog_failure_witness :
  exists w1,
    Init (RT := demo false) "app" false true buffer1 boot = Ret 1 w1 /\
    trace w1 =
      [EWrite buffer1
         ("[ERROR]: 2009/11/10 23:00:00.000000 main.go:23: "
          +:+ "Unix syslog delivery error" +:+ nl);
       EWrite Stderr
         ("[ERROR]: 2009/11/10 23:00:00.000000 main.go:23: "
          +:+ "Unix syslog delivery error" +:+ nl)].
Proof.
  destruct boot_pristine as (Hb & _).
  destruct (Init_survives_syslog_failure (RT := demo false)
              "app" false buffer1 boot boot _ "Unix syslog delivery error"
              Hb eq_refl)
    as (w1 & HI & _ & _ & _ & _ & Hacc).
  exists w1. split; [exact HI |]. exact (Hacc (conj eq_refl I)).
Defined.

Lemma setup_all_or_nothing_witness :
  exists w1 lg,
    Init (RT := demo true) "app" false true buffer1 boot = Ret 1 w1 /\
    heap w1 !! 1 = Some lg /\
    existsb is_syslog (log_out (infoLog lg)) = existsb is_syslog (log_out (warnLog lg)) /\
    existsb is_syslog (log_out (warnLog lg)) = existsb is_syslog (log_out (errorLog lg)).
Proof.
  destruct boot_pristine as (Hb & _).
  destruct (setup_all_or_nothing (RT := demo true) "app" false buffer1 boot _ Hb)
    as (_ & w1 & lg & il & wl & el & HI & Hl & _ & _ & H1 & H2).
  exists w1, lg. split; [exact HI |]. split; [exact Hl |]. split; [exact H1 | exact H2].
Defined.

(** * The rest of the API *)

Section Surface.
Context {RT : Runtime}.

(** ** Outcomes of the logging calls *)

Lemma logged_trace w evs : trace (logged w evs) = trace w ++ evs.
Proof. done. Qed.

Lemma closes_of_app a b : closes_of (a ++ b) = closes_of a ++ closes_of b.
Proof. unfold closes_of. apply omap_app. Qed.

Lemma writes_of_app a b : writes_of (a ++ b) = writes_of a ++ writes_of b.
Proof. unfold writes_of. apply omap_app. Qed.

Lemma closes_of_write_events h ws p : closes_of (write_events h ws p) = [].
Proof.
  revert h. induction ws as [| d rest IH]; intros h; [done |].
  unfold closes_of in *. simpl. destruct (writer_Write h d p); [done | apply IH].
Qed.

Lemma severity_code_is_severity s : is_severity (severity_code s).
Proof. destruct s; unfold is_severity; simpl; tauto. Qed.

(** What a logging call does, whatever its outcome. *)
Lemma exec_log_outcome t s sh w :
  exec_log t s sh w =
  match heap w !! target_addr t w with
  | None => Panicked nil_dereference w
  | Some lg =>
      let w1 := logged w (record_events (trace w) (channel lg (severity_code s))
                            (shape_depth sh) (shape_text sh)) in
      match s with
      | SevFatal =>
          Exited 1 (if initialized lg
                    then logged w1 (close_events (trace w1) (closers lg))
                    else w1)
      | _ => Ret tt w1
      end
  end.
Proof.
  destruct (heap w !! target_addr t w) as [lg |] eqn:Hl.
  - destruct s.
    1-3: destruct t, sh; simpl in *;
      unfold Logger_Info, Logger_InfoDepth, Logger_Infoln, Logger_Infof,
        Info, InfoDepth, Infoln, Infof,
        Logger_Warning, Logger_WarningDepth, Logger_Warningln, Logger_Warningf,
        Warning, WarningDepth, Warningln, Warningf,
        Logger_Error, Logger_ErrorDepth, Logger_Errorln, Logger_Errorf,
        Error, ErrorDepth, Errorln, Errorf;
      try (unfold bind at 1, get_default);
      apply (output_ok _ lg); try done;
      unfold is_severity, sInfo, sWarn, sError, sFatal; tauto.
    destruct t, sh; simpl in *;
      first [apply (fatal_default_ok lg), Hl | apply (fatal_ok _ lg), Hl].
  - assert (Hp : forall d txt, output (target_addr t w) (severity_code s) d txt w
                               = Panicked nil_dereference w).
    { intros d txt. apply output_nil; [done | apply severity_code_is_severity]. }
    destruct t, s, sh; simpl in *;
      unfold Logger_Info, Logger_InfoDepth, Logger_Infoln, Logger_Infof,
        Info, InfoDepth, Infoln, Infof,
        Logger_Warning, Logger_WarningDepth, Logger_Warningln, Logger_Warningf,
        Warning, WarningDepth, Warningln, Warningf,
        Logger_Error, Logger_ErrorDepth, Logger_Errorln, Logger_Errorf,
        Error, ErrorDepth, Errorln, Errorf,
        Logger_Fatal, Logger_FatalDepth, Logger_Fatalln, Logger_Fatalf,
        Fatal, FatalDepth, Fatalln, Fatalf;
      unfold bind, get_default; by rewrite Hp.
Qed.

Lemma Logger_Close_nil l w :
  heap w !! l = None -> Logger_Close l w = Panicked nil_dereference w.
Proof. intros H. unfold Logger_Close, bind, deref. by rewrite H. Qed.

Lemma Logger_SetLevel_nil l lvl w :
  heap w !! l = None -> Logger_SetLevel l lvl w = Panicked nil_dereference w.
Proof. intros H. unfold Logger_SetLevel, bind, deref. by rewrite H. Qed.

Lemma Logger_Verbosity_nil l lvl w :
  heap w !! l = None -> Logger_Verbosity l lvl w = Panicked nil_dereference w.
Proof. intros H. unfold Logger_Verbosity, bind, deref. by rewrite H. Qed.

(** What a call on a receiver does, whatever its outcome: on a nil receiver
    it panics at once; otherwise it returns or exits, and the events it adds
    are as listed. *)
Lemma exec_on_target c t w :
  call_target c = Some t ->
  match heap w !! target_addr t w with
  | None => exec c w = Panicked nil_dereference w
  | Some lg =>
      exists evs w',
        (exec c w = Ret tt w' \/ exec c w = Exited 1 w') /\
        trace w' = trace w ++ evs /\
        (closes_destinations c = false -> closes_of evs = [])
  end.
Proof.
  intros Ht. destruct (heap w !! target_addr t w) as [lg |] eqn:Hl.
  - destruct c as [| t0 | t0 s sh | t0 lvl | t0 lvl sh |];
      simpl in Ht; simplify_eq.
    + assert (exec (CClose t) w = Logger_Close (target_addr t w) w) as ->
        by (by destruct t).
      rewrite (Logger_Close_ok _ lg) by done.
      destruct (initialized lg); eexists _, _;
        (split; [by left |]); split; try done.
      by rewrite app_nil_r.
    + change (exec (CLog t s sh) w) with (exec_log t s sh w).
      rewrite exec_log_outcome, Hl. cbv zeta.
      destruct s.
      1-3: eexists _, _; split; [by left |]; split; [done |]; intros _;
        apply closes_of_write_events.
      destruct (initialized lg); eexists _, _; (split; [by right |]);
        (split; [| done]); simpl; [by rewrite <- app_assoc | done].
    + assert (exec (CSetLevel t lvl) w
              = Logger_SetLevel (target_addr t w) lvl w) as ->
        by (by destruct t).
      rewrite (Logger_SetLevel_ok _ lg) by done.
      eexists _, _. split; [by left |]. split; [done |]. intros _.
      apply closes_of_write_events.
    + assert (exec (CVerbose t lvl sh) w
              = (let* v := Logger_Verbosity (target_addr t w) lvl in
                 exec_verbose v sh) w) as ->
        by (by destruct t).
      unfold bind. rewrite (Logger_Verbosity_ok _ lg) by done.
      rewrite (exec_verbose_ok _ _ lg) by done. simpl.
      destruct (level lg >=? lvl)%Z; eexists _, _;
        (split; [by left |]); split; try done.
      * intros _. apply closes_of_write_events.
      * by rewrite app_nil_r.
      * done.
  - destruct c as [| t0 | t0 s sh | t0 lvl | t0 lvl sh |];
      simpl in Ht; simplify_eq.
    + destruct t; by apply Logger_Close_nil.
    + change (exec (CLog t s sh) w) with (exec_log t s sh w).
      by rewrite exec_log_outcome, Hl.
    + destruct t; by apply Logger_SetLevel_nil.
    + assert (exec (CVerbose t lvl sh) w
              = (let* v := Logger_Verbosity (target_addr t w) lvl in
                 exec_verbose v sh) w) as ->
        by (by destruct t).
      unfold bind. by rewrite (Logger_Verbosity_nil _ _ _ Hl).
Qed.

(** What a call without a receiver does where the default logger is
    allocated: it returns, and closes nothing. *)
Lemma exec_without_target c w :
  call_target c = None -> is_Some (heap w !! defaultLogger w) ->
  exists evs w',
    exec c w = Ret tt w' /\ trace w' = trace w ++ evs /\ closes_of evs = [].
Proof.
  intros Ht [dl Hd].
  destruct c as [name verbose systemLog logFd | | | | | flag]; simplify_eq/=.
  - destruct (Init_total name verbose systemLog logFd w dl Hd)
      as (il & wl & el & err & n & _ & _ & HI).
    unfold bind. rewrite HI. eexists _, _. split; [done |].
    split; [done |]. destruct err; [apply closes_of_write_events | done].
  - unfold SetFlags, bind, get_default, deref, store. rewrite Hd.
    exists [], (stored w (defaultLogger w) (with_flags flag dl)).
    split; [done |]. split; [by rewrite app_nil_r | done].
Qed.

(** ** Severity dispatch *)

(** X1: [output] panics with the "Unrecognized Severity" message for every
    severity value other than the four constants, before it touches the
    logger (even a nil one) and without writing anything; for the four
    constants it writes one record on the channel of that severity when the
    logger is allocated, and panics on a nil dereference when it is not. *)
Theorem output_panics_on_unrecognized_severity
    (l : nat) (s depth : Z) (txt : string) (w : World) :
  (~ is_severity s ->
     output l s depth txt w
     = Panicked (Sprintln [VString "[FATAL]: Unrecognized Severity:"; VInt s]) w)
  /\
  (is_severity s ->
     output l s depth txt w
     = match heap w !! l with
       | Some lg =>
           Ret tt (logged w (record_events (trace w) (channel lg s) depth txt))
       | None => Panicked nil_dereference w
       end).
Proof.
  split; intros Hs.
  - unfold output, is_severity in *.
    destruct (Z.eqb_spec s sInfo); [tauto |].
    destruct (Z.eqb_spec s sWarn); [tauto |].
    destruct (Z.eqb_spec s sError); [tauto |].
    destruct (Z.eqb_spec s sFatal); [tauto | done].
  - destruct (heap w !! l) as [lg |] eqn:Hl;
      [by apply output_ok | by apply output_nil].
Qed.

(** X2: every logging function that is not a Fatal one -- [Info],
    [InfoDepth], [Infoln], [Infof] and their Warning and Error counterparts,
    as methods and as package-level functions -- returns, having written
    exactly one record: on the channel of its own severity, with call depth
    3 plus the depth argument (0 without one), and with the text
    [fmt.Sprint], [fmt.Sprintln] or [fmt.Sprintf] makes of the operands.  No
    struct, pointer or connection changes. *)
Theorem log_calls_write_one_record_on_their_channel
    (t : Target) (s : Severity) (sh : Shape) (lg : Logger) (w : World) :
  heap w !! target_addr t w = Some lg ->
  s <> SevFatal ->
  let c := match s with
           | SevInfo => infoLog lg
           | SevWarning => warnLog lg
           | SevError => errorLog lg
           | SevFatal => fatalLog lg
           end in
  exec_log t s sh w
  = Ret tt (mkWorld (heap w) (defaultLogger w) (conns w)
              (trace w ++
               write_events (trace w) (log_out c)
                 (formatRecord c (int_add 3 (shape_depth sh)) (shape_text sh)))).
Proof.
  intros Hl Hs. rewrite exec_log_outcome, Hl. by destruct s.
Qed.

(** ** Panics *)

(** X4: a method called on a nil [*Logger] panics on the nil dereference
    before anything is written, closed or changed: [Close], every logging
    method -- the Fatal ones included, which then neither close anything nor
    end the process --, [SetLevel] and [Verbosity].  The package-level
    functions never meet that case through the default logger: in every
    state a client can reach, [defaultLogger] points to an allocated
    struct. *)
Theorem nil_Logger_methods_panic_and_default_is_never_nil
    (c : Call) (w : World) :
  (forall l, call_target c = Some (At l) -> heap w !! l = None ->
     exec c w = Panicked nil_dereference w) /\
  (reachable w -> is_Some (heap w !! defaultLogger w)).
Proof.
  split.
  - intros l Ht Hl. pose proof (exec_on_target c (At l) w Ht) as H.
    simpl in H. by rewrite Hl in H.
  - intros Hr. apply (wf_default _ (reachable_wf _ Hr)).
Qed.

(** ** Closing *)

(** X5: only [Close] and the Fatal logging functions ever call [Close] on a
    destination.  Whatever its outcome, any other call -- [Init], the Info,
    Warning and Error functions, [SetLevel], [Verbosity] with its Info
    methods, [SetFlags] -- only adds events to the trace, and none of them is
    a [Close]. *)
Theorem only_Close_and_Fatal_close_destinations (c : Call) (w : World) :
  reachable w ->
  closes_destinations c = false ->
  exists evs,
    trace (world_of (exec c w)) = trace w ++ evs /\ closes_of evs = [].
Proof.
  intros Hr Hc. pose proof (reachable_wf _ Hr) as Hwf.
  destruct (call_target c) as [t |] eqn:Ht.
  - pose proof (exec_on_target c t w Ht) as H.
    destruct (heap w !! target_addr t w) as [lg |].
    + destruct H as (evs & w1 & [H | H] & Htr & Hcl); rewrite H; simpl;
        exists evs; auto.
    + rewrite H. exists []. simpl. by rewrite app_nil_r.
  - destruct (exec_without_target c w Ht (wf_default _ Hwf))
      as (evs & w1 & H & Htr & Hcl).
    rewrite H. by exists evs.
Qed.

(** ** The wiring [Init] leaves *)

Lemma exec_CInit name verbose systemLog logFd w a w1 :
  Init name verbose systemLog logFd w = Ret a w1 ->
  exec (CInit name verbose systemLog logFd) w = Ret tt w1.
Proof. intros H. simpl. unfold bind. by rewrite H. Qed.








(** ** What changes a struct *)

Lemma same_flags_refl lg s : log_flag (channel lg s) = log_flag (channel lg s).
Proof. done. Qed.

(** What a returning call does to the heap. *)
Lemma exec_heap c w w' :
  is_Some (heap w !! defaultLogger w) ->
  exec c w = Ret tt w' ->
  heap w' = heap w \/
  (exists t lvl lg, c = CSetLevel t lvl /\
     heap w !! target_addr t w = Some lg /\
     heap w' = <[target_addr t w := with_level lvl lg]> (heap w)) \/
  (exists flag dl, c = CSetFlags flag /\
     heap w !! defaultLogger w = Some dl /\
     heap w' = <[defaultLogger w := with_flags flag dl]> (heap w)) \/
  (exists name verbose systemLog logFd il wl el,
     c = CInit name verbose systemLog logFd /\
     heap w' = heap w ++ [built verbose logFd il wl el]).
Proof.
  intros [dl Hd] H.
  destruct c as [name verbose systemLog logFd | t | t s sh
                | t lvl | t lvl sh | flag].
  - destruct (Init_total name verbose systemLog logFd w dl Hd)
      as (il & wl & el & err & n & _ & _ & HI).
    rewrite (exec_CInit _ _ _ _ _ _ _ HI) in H. injection H as <-.
    right; right; right. by exists name, verbose, systemLog, logFd, il, wl, el.
  - left. assert (Logger_Close (target_addr t w) w = Ret tt w') as Hc
      by (by destruct t).
    apply Logger_Close_Ret in Hc as (lg & _ & ->). by destruct (initialized lg).
  - left. apply exec_log_Ret in H as [evs ->]. done.
  - right; left.
    assert (Logger_SetLevel (target_addr t w) lvl w = Ret tt w') as Hc
      by (by destruct t).
    apply Logger_SetLevel_Ret in Hc as (lg & Hl & ->). by exists t, lvl, lg.
  - left. pose proof (exec_on_target (CVerbose t lvl sh) t w eq_refl) as Ho.
    destruct (heap w !! target_addr t w) as [lg |] eqn:Hl; [| congruence].
    assert (exec (CVerbose t lvl sh) w
            = (let* v := Logger_Verbosity (target_addr t w) lvl in
               exec_verbose v sh) w) as Hx
      by (by destruct t).
    rewrite Hx in H. unfold bind in H.
    rewrite (Logger_Verbosity_ok _ lg) in H by done.
    rewrite (exec_verbose_ok
               (mkVerbose (level lg >=? lvl)%Z (target_addr t w)) sh lg)
      in H by done.
    injection H as <-. simpl. by destruct (level lg >=? lvl)%Z.
  - right; right; left. simpl in H.
    unfold SetFlags, bind, get_default, deref, store in H. rewrite Hd in H.
    injection H as <-. by exists flag, dl.
Qed.

(** X9: the structs are stable.  A call that returns leaves every logger
    at its address with the same destinations, prefixes, closers and
    initialized flag -- [Close] included, which does not mark the logger as
    closed.  The Level of a logger changes only by [SetLevel] on that
    logger, and the flags of its channels only by [SetFlags], which sets
    them on all four channels of the default logger and on no other
    logger. *)
Theorem structs_change_only_by_SetLevel_and_SetFlags
    (c : Call) (w w' : World) (l : nat) (lg : Logger) :
  reachable w ->
  exec c w = Ret tt w' ->
  heap w !! l = Some lg ->
  exists lg',
    heap w' !! l = Some lg' /\
    same_wiring lg lg' /\
    (level lg' = level lg \/
     exists t, c = CSetLevel t (level lg') /\ target_addr t w = l) /\
    ((forall s, log_flag (channel lg' s) = log_flag (channel lg s)) \/
     exists flag, c = CSetFlags flag /\ l = defaultLogger w /\
                  all_flags flag lg').
Proof.
  intros Hr H Hl. pose proof (reachable_wf _ Hr) as Hwf.
  destruct (exec_heap c w w' (wf_default _ Hwf) H)
    as [Hh | [(t & lvl & lg0 & -> & Hl0 & Hh)
       | [(flag & dl & -> & Hd & Hh)
       | (name & verbose & systemLog & logFd & il & wl & el & -> & Hh)]]];
    rewrite Hh.
  - exists lg. split; [done |]. split; [apply same_wiring_refl |].
    split; [by left | by left].
  - destruct (decide (target_addr t w = l)) as [<- | Hne].
    + assert (lg0 = lg) as -> by congruence.
      exists (with_level lvl lg).
      split; [apply list_lookup_insert_eq; by eapply lookup_lt_Some |].
      split; [apply same_wiring_level |].
      split; [right; by exists t | by left].
    + exists lg. rewrite list_lookup_insert_ne by done.
      split; [done |]. split; [apply same_wiring_refl |].
      split; [by left | by left].
  - destruct (decide (defaultLogger w = l)) as [<- | Hne].
    + assert (dl = lg) as -> by congruence.
      exists (with_flags flag lg).
      split; [apply list_lookup_insert_eq; by eapply lookup_lt_Some |].
      split; [apply same_wiring_flags |].
      split; [by left |]. right. by exists flag.
    + exists lg. rewrite list_lookup_insert_ne by done.
      split; [done |]. split; [apply same_wiring_refl |].
      split; [by left | by left].
  - exists lg. split; [by apply lookup_app_l_Some |].
    split; [apply same_wiring_refl |]. split; [by left | by left].
Qed.

(** X10: flags set before the first [Init] are lost.  [SetFlags] sets the
    flags on the four channels of the logger [init_logger] installed; the
    first [Init] then replaces that logger by one whose four channels carry
    [log.Ldate|log.Lmicroseconds|log.Lshortfile] again, so the package-level
    functions are back to the default format. *)
Theorem SetFlags_before_first_Init_is_lost
    (pre : list Call) (flag : Z) (name : string) (verbose systemLog : bool)
    (logFd : Writer) (w1 : World) :
  forallb (fun c => negb (is_Init c)) pre = true ->
  exec_all pre boot = Ret tt w1 ->
  exists w2 dl w3 lg,
    SetFlags flag w1 = Ret tt w2 /\
    heap w2 !! defaultLogger w2 = Some dl /\ all_flags flag dl /\
    Init name verbose systemLog logFd w2 = Ret (defaultLogger w3) w3 /\
    heap w3 !! defaultLogger w3 = Some lg /\ all_flags flags lg.
Proof.
  intros Hpre Hrun.
  destruct (default_uninitialized_before_Init pre w1 Hpre Hrun)
    as (dl & Hd & Hi).
  set (w2 := stored w1 (defaultLogger w1) (with_flags flag dl)).
  assert (H2 : SetFlags flag w1 = Ret tt w2).
  { unfold SetFlags, bind, get_default, deref, store. by rewrite Hd. }
  assert (Hd2 : heap w2 !! defaultLogger w2 = Some (with_flags flag dl)).
  { by eapply stored_lookup. }
  destruct (Init_total name verbose systemLog logFd w2 _ Hd2)
    as (il & wl & el & err & n & _ & _ & HI).
  destruct (after_Init_facts verbose logFd il wl el err w2 (connected w2 n)
              (with_flags flag dl)) as (_ & Hnew & _).
  set (w3 := after_Init _ _ _ _ _ _ _ _ _) in *.
  assert (Hdef : defaultLogger w3 = length (heap w2)).
  { subst w3. unfold after_Init. simpl. by rewrite Hi. }
  exists w2, (with_flags flag dl), w3, (built verbose logFd il wl el).
  split; [exact H2 |]. split; [exact Hd2 |].
  split; [done |]. rewrite Hdef. split; [exact HI |].
  split; [exact Hnew | done].
Qed.

(** X11: [init_logger] starts over, from any state: it allocates a new
    logger that is not initialized, has no closers, Level 0, the default
    flags, and writes to standard error only, and points [defaultLogger] at
    it, without closing or changing the loggers there were.  The [Init] that
    follows therefore installs its logger as the default, even if an earlier
    [Init] had done so before. *)
Theorem init_logger_resets_the_default
    (name : string) (verbose systemLog : bool) (logFd : Writer) (w : World) :
  exists w1 dl w2,
    init_logger w = Ret tt w1 /\
    heap w1 = heap w ++ [dl] /\
    defaultLogger w1 = length (heap w) /\
    trace w1 = trace w /\
    pristine dl /\ level dl = 0%Z /\ all_flags flags dl /\
    Init name verbose systemLog logFd w1 = Ret (S (length (heap w))) w2 /\
    defaultLogger w2 = S (length (heap w)).
Proof.
  set (dl := mkLogger (log_New [Stderr] (initText +:+ labelInfo) flags)
               (log_New [Stderr] (initText +:+ labelWarn) flags)
               (log_New [Stderr] (initText +:+ labelErr) flags)
               (log_New [Stderr] (initText +:+ labelFatal) flags)
               [] false 0).
  set (w1 := mkWorld (heap w ++ [dl]) (length (heap w)) (conns w) (trace w)).
  assert (Hd : heap w1 !! defaultLogger w1 = Some dl).
  { simpl. by rewrite list_lookup_middle. }
  assert (Hlen : length (heap w1) = S (length (heap w))).
  { simpl. rewrite length_app. simpl. lia. }
  destruct (Init_total name verbose systemLog logFd w1 dl Hd)
    as (il & wl & el & err & n & _ & _ & HI).
  rewrite Hlen in HI.
  exists w1, dl, (after_Init verbose logFd il wl el err w1 (connected w1 n) dl).
  do 4 (split; [reflexivity |]).
  split.
  { repeat split; try done;
      destruct H as [-> | [-> | [-> | ->]]]; reflexivity. }
  split; [done |]. split; [done |]. split; [exact HI |].
  simpl. by rewrite length_app, Nat.add_1_r.
Qed.

(** ** The system-log adapter, dial by dial *)

(** X12: [setup] dials the system log three times, with the priorities
    user.notice, user.warning and user.err in that order and the source name
    as tag, and stops at the first dial that fails.  When all three succeed
    it returns the three connections in that order.  When dial number [k]
    fails it returns that dial's error and no writer: the [k] connections it
    had opened by then are neither returned nor closed.  Either way it
    writes nothing and touches no logger. *)
Theorem setup_dials_in_order_and_drops_on_failure (src : string) (w : World) :
  exists r w1 k,
    setup src w = Ret r w1 /\
    trace w1 = trace w /\ heap w1 = heap w /\
    defaultLogger w1 = defaultLogger w /\
    conns w1 = conns w + k /\
    (forall j p, j < k -> dial_priorities !! j = Some p ->
       syslog_New (conns w + j) p src = None) /\
    ((k = 3 /\
      r = (Some (SyslogW (conns w) (Z.lor LOG_USER LOG_NOTICE) src),
           Some (SyslogW (conns w + 1) (Z.lor LOG_USER LOG_WARNING) src),
           Some (SyslogW (conns w + 2) (Z.lor LOG_USER LOG_ERR) src),
           None)) \/
     (k < 3 /\
      exists p err, dial_priorities !! k = Some p /\
        syslog_New (conns w + k) p src = Some err /\
        r = (None, None, None, Some err))).
Proof.
  unfold setup, bind, syslog_dial, ret.
  destruct (syslog_New (conns w) _ src) as [e1 |] eqn:H1; simpl.
  { eexists _, _, 0. split; [reflexivity |]. simpl.
    do 3 (split; [done |]). split; [lia |]. split; [intros; lia |].
    right. split; [lia |]. eexists _, e1. split; [reflexivity |].
    by rewrite Nat.add_0_r. }
  destruct (syslog_New (S (conns w)) _ src) as [e2 |] eqn:H2; simpl.
  { eexists _, _, 1. split; [reflexivity |]. simpl.
    do 3 (split; [done |]). split; [lia |]. split.
    - intros j p Hj Hp. assert (j = 0) as -> by lia.
      injection Hp as <-. by rewrite Nat.add_0_r.
    - right. split; [lia |]. eexists _, e2. split; [reflexivity |].
      by rewrite Nat.add_1_r. }
  destruct (syslog_New (S (S (conns w))) _ src) as [e3 |] eqn:H3; simpl.
  { eexists _, _, 2. split; [reflexivity |]. simpl.
    do 3 (split; [done |]). split; [lia |]. split.
    - intros j p Hj Hp. destruct j as [| [| j]]; [| | lia];
        injection Hp as <-; [by rewrite Nat.add_0_r | by rewrite Nat.add_1_r].
    - right. split; [lia |]. eexists _, e3. split; [reflexivity |].
      by replace (conns w + 2) with (S (S (conns w))) by lia. }
  eexists _, _, 3. split; [reflexivity |]. simpl.
  do 3 (split; [done |]). split; [lia |]. split.
  - intros j p Hj Hp. destruct j as [| [| [| j]]]; [| | | lia];
      injection Hp as <-;
      [by rewrite Nat.add_0_r | by rewrite Nat.add_1_r
      | by replace (conns w + 2) with (S (S (conns w))) by lia].
  - left. split; [done |].
    by rewrite Nat.add_1_r, (Nat.add_comm (conns w) 2).
Qed.

(** X13: [Init] itself is silent unless the system log is unavailable.  It
    allocates one new struct and leaves the others as they are; it never
    closes anything; with [systemLog = false] it opens no connection and
    writes nothing, and when [setup] succeeds it opens three connections and
    writes nothing.  It writes only when [setup] failed. *)
Theorem Init_is_silent_unless_syslog_fails
    (name : string) (verbose systemLog : bool) (logFd : Writer) (w : World) :
  reachable w ->
  exists w1 lg evs,
    Init name verbose systemLog logFd w = Ret (length (heap w)) w1 /\
    heap w1 = heap w ++ [lg] /\
    trace w1 = trace w ++ evs /\ closes_of evs = [] /\
    (systemLog = false -> evs = [] /\ conns w1 = conns w) /\
    (forall il wl el w0,
       systemLog = true ->
       setup name w = Ret (Some il, Some wl, Some el, None) w0 ->
       evs = [] /\ conns w1 = conns w + 3) /\
    (evs <> [] ->
     systemLog = true /\
     exists err w0, setup name w = Ret (None, None, None, Some err) w0).
Proof.
  intros Hr. destruct (wf_default _ (reachable_wf _ Hr)) as [dl Hd].
  destruct (Init_total name verbose systemLog logFd w dl Hd)
    as (il & wl & el & err & n & Hout & Hs & HI).
  eexists _, _, _. split; [exact HI |]. split; [reflexivity |].
  split; [reflexivity |].
  destruct Hout as [(-> & -> & -> & -> & ->) | [(-> & -> & -> & -> & [e ->])
                   | (-> & -> & a & b & c & -> & -> & -> & _)]].
  - split; [done |]. split.
    + intros _. split; [done |]. unfold ret in Hs. injection Hs as Hs.
      apply (f_equal conns) in Hs. simpl in *. lia.
    + split; [done | done].
  - split; [apply (closes_of_write_events (trace w)) |]. split; [done |]. split.
    + intros il wl el w0 _ H0. rewrite H0 in Hs. discriminate.
    + intros _. split; [done |]. by exists e, (connected w n).
  - split; [done |]. split; [done |]. split; [| done].
    intros il wl el w0 _ H0. split; [done |].
    destruct (setup_cases name w) as [(e & m & H) | (? & ? & ? & H & _)];
      rewrite H in Hs; [discriminate |].
    injection Hs as _ _ _ Hs. simpl in *. lia.
Qed.

(** ** Two loggers and the default *)

(** X14: the scenario of [TestInit], for any runtime, any two primary
    destinations and any operands.  After [Init] for the first destination
    and [Init] for the second (both without verbose and system log), [Info]
    on the first logger, [Info] on the second and the package-level [Info]
    write three records in all: the first and the third to the first
    destination, the second to the second destination, each under the label
    [[INFO]: ], and nothing to standard output or standard error; the
    default logger is the first one. *)
Theorem two_Inits_then_Info_on_each_and_default
    (name1 name2 : string) (buf1 buf2 : Writer) (a b c : list Value) :
  let p v := labelInfo +:+ header flags (int_add 3 0) +:+ Sprint v
             +:+ (if ends_with_newline (Sprint v) then "" else nl) in
  exists w,
    exec_all [CInit name1 false false buf1;
              CInit name2 false false buf2;
              CLog (At 1) SevInfo (Print a);
              CLog (At 2) SevInfo (Print b);
              CLog Default SevInfo (Print c)] boot = Ret tt w /\
    defaultLogger w = 1 /\
    trace w = [EWrite buf1 (p a); EWrite buf2 (p b); EWrite buf1 (p c)].
Proof.
  cbv zeta.
  destruct boot_pristine as (Hb & Hbd & _ & _).
  set (l1 := built false buf1 None None None).
  set (l2 := built false buf2 None None None).
  set (w1 := mkWorld (heap boot ++ [l1]) 1 0 []).
  set (w2 := mkWorld ((heap boot ++ [l1]) ++ [l2]) 1 0 []).
  assert (H1 : Init name1 false false buf1 boot = Ret 1 w1).
  { rewrite (Init_ok name1 false false buf1 boot _ None None None None 0 Hb);
      [reflexivity | by unfold ret; rewrite connected_0]. }
  assert (H2 : Init name2 false false buf2 w1 = Ret 2 w2).
  { rewrite (Init_ok name2 false false buf2 w1 l1 None None None None 0
               eq_refl);
      [reflexivity | by unfold ret; rewrite connected_0]. }
  assert (Hone : forall h d q c, log_out c = [d] ->
             write_events h (log_out c) q = [EWrite d q]).
  { intros h d q c0 ->. apply write_events_single. }
  eexists. split; [| split].
  - unfold exec_all.
    unfold bind at 1. rewrite (exec_CInit _ _ _ _ _ _ _ H1).
    unfold bind at 1. rewrite (exec_CInit _ _ _ _ _ _ _ H2).
    unfold bind at 1.
    change (exec (CLog (At 1) SevInfo (Print a)) w2)
      with (exec_log (At 1) SevInfo (Print a) w2).
    rewrite exec_log_outcome.
    change (heap w2 !! target_addr (At 1) w2) with (Some l1). cbv zeta.
    unfold record_events at 1. rewrite (Hone _ buf1) by reflexivity.
    unfold bind at 1.
    match goal with
    | |- context [exec (CLog (At 2) SevInfo (Print b)) ?w] =>
        change (exec (CLog (At 2) SevInfo (Print b)) w)
          with (exec_log (At 2) SevInfo (Print b) w)
    end.
    rewrite exec_log_outcome.
    change (heap (logged w2 _) !! target_addr (At 2) (logged w2 _))
      with (Some l2). cbv zeta.
    unfold record_events at 1. rewrite (Hone _ buf2) by reflexivity.
    unfold bind at 1.
    match goal with
    | |- context [exec (CLog Default SevInfo (Print c)) ?w] =>
        change (exec (CLog Default SevInfo (Print c)) w)
          with (exec_log Default SevInfo (Print c) w)
    end.
    rewrite exec_log_outcome.
    match goal with
    | |- context [heap ?w !! target_addr Default ?w] =>
        change (heap w !! target_addr Default w) with (Some l1)
    end. cbv zeta.
    unfold record_events at 1. rewrite (Hone _ buf1) by reflexivity.
    reflexivity.
  - reflexivity.
  - reflexivity.
Qed.

(** ** Level and verbosity, end to end *)

(** X15: [Verbosity(lvl)] followed by [Info], [Infoln] or [Infof] on the
    handle is exactly the [Info], [Infoln] or [Infof] of the same logger
    when the logger's Level is at least [lvl], and does nothing at all
    otherwise; on a nil logger it panics, whatever the level asked for. *)
Theorem Verbosity_then_Info_is_Info_or_nothing
    (t : Target) (lvl : Z) (sh : VShape) (w : World) :
  exec (CVerbose t lvl sh) w =
  match heap w !! target_addr t w with
  | None => Panicked nil_dereference w
  | Some lg =>
      if (level lg >=? lvl)%Z then exec (CLog t SevInfo (shape_of sh)) w
      else Ret tt w
  end.
Proof.
  assert (exec (CVerbose t lvl sh) w
          = (let* v := Logger_Verbosity (target_addr t w) lvl in
             exec_verbose v sh) w) as ->
    by (by destruct t).
  unfold bind.
  destruct (heap w !! target_addr t w) as [lg |] eqn:Hl.
  - rewrite (Logger_Verbosity_ok _ lg) by done.
    rewrite (exec_verbose_ok
               (mkVerbose (level lg >=? lvl)%Z (target_addr t w)) sh lg)
      by done.
    simpl. destruct (level lg >=? lvl)%Z; [| done].
    change (exec (CLog t SevInfo (shape_of sh)) w)
      with (exec_log t SevInfo (shape_of sh) w).
    rewrite exec_log_outcome, Hl. by destruct sh.
  - by rewrite (Logger_Verbosity_nil _ _ _ Hl).
Qed.

(** X16: [SetLevel] overwrites and always announces.  Two [SetLevel] calls
    in a row on the same logger both return; the Level is then the second
    one and the heap is the one a single [SetLevel] with the second level
    would have left; each call has written one info record, "Info verbosity
    set to" the level it was given -- whatever the Level was before and
    whether or not it changed. *)
Theorem SetLevel_twice_last_wins_both_announce
    (t : Target) (a b : Z) (lg : Logger) (w : World) :
  heap w !! target_addr t w = Some lg ->
  let announce h lvl :=
    write_events h (log_out (infoLog lg))
      (formatRecord (infoLog lg) (int_add 3 0)
         (Sprintf "Info verbosity set to %d" [VInt lvl])) in
  exists w1 w2,
    exec (CSetLevel t a) w = Ret tt w1 /\
    exec (CSetLevel t b) w1 = Ret tt w2 /\
    heap w2 = <[target_addr t w := with_level b lg]> (heap w) /\
    defaultLogger w2 = defaultLogger w /\
    trace w1 = trace w ++ announce (trace w) a /\
    trace w2 = trace w1 ++ announce (trace w1) b.
Proof.
  intros Hl. cbv zeta.
  assert (Hx : forall lvl w0, target_addr t w0 = target_addr t w ->
            exec (CSetLevel t lvl) w0
            = Logger_SetLevel (target_addr t w) lvl w0).
  { intros lvl w0 Ht. destruct t; simpl in *; [| done].
    unfold SetLevel, bind, get_default. by rewrite Ht. }
  eexists _, _.
  split; [rewrite Hx by done; by apply Logger_SetLevel_ok |].
  set (w1 := logged _ _).
  assert (Hl1 : heap w1 !! target_addr t w = Some (with_level a lg)).
  { subst w1. by eapply stored_lookup. }
  split.
  { rewrite Hx by (by destruct t). by apply (Logger_SetLevel_ok _ _ _ _ Hl1). }
  split; [simpl; by rewrite list_insert_insert_eq |].
  split; [done |]. split; [done | done].
Qed.

End Surface.

(** * The rest of the API on concrete runs *)

(** A system log that refuses the third connection: [setup] returns the
    error and leaves the two connections it had opened. *)
Example setup_third_dial_refused :
  setup (RT := demo_flaky 2) "app" boot
  = Ret (None, None, None, Some "Unix syslog delivery error") (connected boot 2).
Proof. vm_compute. reflexivity. Qed.

Lemma output_panics_on_unrecognized_severity_witness :
  output (RT := demo true) 0 7 0 "lost" boot
  = Panicked ("[FATAL]: Unrecognized Severity: 7" +:+ nl) boot.
Proof.
  apply (output_panics_on_unrecognized_severity (RT := demo true)
           0 7 0 "lost" boot).
  unfold is_severity, sInfo, sWarn, sError, sFatal. lia.
Defined.

Lemma log_calls_write_one_record_on_their_channel_witness :
  exists w',
    Warningln (RT := demo true) [VString "disk"; VInt 90] boot = Ret tt w' /\
    trace w' =
      [EWrite Stderr
         (initText +:+ labelWarn
          +:+ "2009/11/10 23:00:00.000000 main.go:23: disk 90" +:+ nl)].
Proof.
  destruct boot_pristine as (Hb & _).
  eexists. split.
  - apply (log_calls_write_one_record_on_their_channel (RT := demo true)
             Default SevWarning (Println [VString "disk"; VInt 90]) _ boot Hb).
    discriminate.
  - vm_compute. reflexivity.
Defined.

Lemma nil_Logger_methods_panic_and_default_is_never_nil_witness :
  exec (RT := demo true) (CLog (At 5) SevFatal (Print [VString "x"])) boot
  = Panicked nil_dereference boot /\
  is_Some (heap boot !! defaultLogger boot).
Proof.
  destruct (nil_Logger_methods_panic_and_default_is_never_nil (RT := demo true)
              (CLog (At 5) SevFatal (Print [VString "x"])) boot)
    as [Hnil Hdef].
  split; [apply (Hnil 5); reflexivity | apply Hdef, reachable_boot].
Defined.

Lemma only_Close_and_Fatal_close_destinations_witness :
  exists evs,
    trace (world_of (exec (RT := demo false)
                       (CInit "app" true true file1) boot))
    = trace boot ++ evs /\
    closes_of evs = [].
Proof.
  apply (only_Close_and_Fatal_close_destinations (RT := demo false)
           (CInit "app" true true file1) boot reachable_boot).
  reflexivity.
Defined.




Lemma structs_change_only_by_SetLevel_and_SetFlags_witness :
  exists w' lg',
    exec (RT := demo true) (CClose (At 1))
      (mkWorld (heap boot ++ [built false file1 None None None]) 1 0 [])
    = Ret tt w' /\
    heap w' !! 1 = Some lg' /\ initialized lg' = true /\
    closers lg' = [file1].
Proof.
  set (w0 := mkWorld (heap boot ++ [built false file1 None None None]) 1 0 []).
  assert (Hr : reachable (RT := demo true) w0).
  { apply (reachable_step (RT := demo true)
             (CInit "app" false false file1) boot w0 reachable_boot).
    vm_compute. reflexivity. }
  assert (Hc : exec (RT := demo true) (CClose (At 1)) w0
               = Ret tt (logged w0 [EClose file1])).
  { vm_compute. reflexivity. }
  destruct (structs_change_only_by_SetLevel_and_SetFlags (RT := demo true)
              (CClose (At 1)) w0 _ 1 (built false file1 None None None)
              Hr Hc eq_refl)
    as (lg' & Hl & (Hi & Hcl & _) & _).
  eexists _, lg'. split; [exact Hc |]. split; [exact Hl |].
  split; [by rewrite <- Hi | by rewrite <- Hcl].
Defined.

Lemma SetFlags_before_first_Init_is_lost_witness :
  exists w2 w3 lg,
    SetFlags 3 boot = Ret tt w2 /\
    Init (RT := demo true) "app" false false buffer1 w2
      = Ret (defaultLogger w3) w3 /\
    heap w3 !! defaultLogger w3 = Some lg /\
    log_flag (infoLog lg) = flags.
Proof.
  destruct (SetFlags_before_first_Init_is_lost (RT := demo true)
              [] 3 "app" false false buffer1 boot eq_refl eq_refl)
    as (w2 & dl & w3 & lg & H2 & _ & _ & HI & Hl & Hf).
  exists w2, w3, lg. split; [exact H2 |]. split; [exact HI |].
  split; [exact Hl | apply Hf].
Defined.

Lemma Init_is_silent_unless_syslog_fails_witness :
  exists w1,
    Init (RT := demo true) "app" true true file1 boot = Ret 1 w1 /\
    trace w1 = [] /\ conns w1 = 3.
Proof.
  destruct (Init_is_silent_unless_syslog_fails (RT := demo true)
              "app" true true file1 boot reachable_boot)
    as (w1 & lg & evs & HI & _ & Ht & _ & _ & Hup & _).
  exists w1. split; [exact HI |].
  destruct (Hup (SyslogW 0 (Z.lor LOG_USER LOG_NOTICE) "app")
                (SyslogW 1 (Z.lor LOG_USER LOG_WARNING) "app")
                (SyslogW 2 (Z.lor LOG_USER LOG_ERR) "app")
                (connected boot 3) eq_refl eq_refl) as [-> Hc].
  split; [by rewrite Ht | exact Hc].
Defined.

Lemma SetLevel_twice_last_wins_both_announce_witness :
  exists w1 w2 lg,
    SetLevel (RT := demo true) 2 boot = Ret tt w1 /\
    SetLevel (RT := demo true) 5 w1 = Ret tt w2 /\
    heap w2 !! 0 = Some lg /\ level lg = 5%Z /\
    length (trace w2) = 2.
Proof.
  destruct boot_pristine as (Hb & _).
  destruct (SetLevel_twice_last_wins_both_announce (RT := demo true)
              Default 2 5 _ boot Hb)
    as (w1 & w2 & H1 & H2 & Hh & _ & Ht1 & Ht2).
  eexists w1, w2, _. split; [exact H1 |]. split; [exact H2 |].
  split; [rewrite Hh; reflexivity |]. split; [reflexivity |].
  rewrite Ht2, Ht1. reflexivity.
Defined.
